(** * tvnn-qol-bot: the download-and-delivery handlers of [src/bot.ts]

    A shallow embedding of the pure and the state-passing parts of the
    Telegram bot: the URL extractor, the quality ladder, the menu builder
    and its callback payload, the audio tag parser, the cleanup routine and
    the error classification of the two metadata handlers.

    Conventions of the embedding.
    - A JavaScript string is a [string]: a sequence of code units below 256.
      The whitespace class [\s] and the line terminators excluded by [.] are
      the ones that exist in that range.
    - A JavaScript number that the program uses as an integer (file sizes,
      pixel heights, durations, message ids) is a [Z]; [undefined] is [None].
    - A thrown exception is the [Throw] case of [completion].
    - The file system is the [files] of a [world], a map from paths to
      contents.  Reading or deleting a path that is not there throws; a write
      throws what [write_error] holds for its path, and is accepted
      otherwise.
    - A regular expression literal is a [regex] term with the same shape as
      the literal, run by a backtracking matcher with the priorities of the
      ECMAScript matcher (greedy before lazy, left alternative first). *)

From Stdlib Require Import ZArith List String Ascii Bool Lia Sorted Permutation.
From Stdlib Require Import DecimalString DecimalZ DecimalPos DecimalN.
Import ListNotations.

Local Open Scope list_scope.
Local Open Scope string_scope.
Local Open Scope Z_scope.

(* ================================================================== *)
(** * Part I: the embedding                                            *)
(* ================================================================== *)

(** ** JavaScript values used by the bot *)

Module Js.

(** Errors that reach a [catch] handler.  [TypeError] is what the engine
    raises on a property read of [undefined] (the messages are those of
    Node's engine); [ToolError] is a rejection of the yt-dlp subprocess,
    carrying the text that [String(e)] gives it; [IOError] is a failed file
    system call. *)
Inductive error :=
| TypeError (msg : string)
| ToolError (text : string)
| IOError (code : string) (path : string).

Inductive completion (A : Type) :=
| Normal (a : A)
| Throw (e : error).
Arguments Normal {A} a.
Arguments Throw {A} e.

Definition bind {A B} (c : completion A) (f : A -> completion B) : completion B :=
  match c with
  | Normal a => f a
  | Throw e => Throw e
  end.

(** [String(e)], the text a template literal gives an error. *)
Definition error_to_string (e : error) : string :=
  match e with
  | TypeError msg => "TypeError: " ++ msg
  | ToolError text => text
  | IOError code path => "Error: " ++ code ++ ": " ++ path
  end.

(** *** Characters *)

Definition code (c : ascii) : N := N_of_ascii c.

Definition in_range (lo hi : N) (c : ascii) : bool :=
  (N.leb lo (code c) && N.leb (code c) hi)%bool.

(** [\s] *)
Definition is_space (c : ascii) : bool :=
  (in_range 9 13 c || N.eqb (code c) 32 || N.eqb (code c) 160)%bool.

(** [[^\s]] *)
Definition non_space (c : ascii) : bool := negb (is_space c).

(** The line terminators, which [.] does not match. *)
Definition is_line_terminator (c : ascii) : bool :=
  (N.eqb (code c) 10 || N.eqb (code c) 13)%bool.

(** [.] *)
Definition dot (c : ascii) : bool := negb (is_line_terminator c).

Definition is_digit (c : ascii) : bool := in_range 48 57 c.

(** [\w] *)
Definition is_word (c : ascii) : bool :=
  (is_digit c || in_range 65 90 c || in_range 97 122 c || N.eqb (code c) 95)%bool.

(** [[^x]] for a single character [x]. *)
Definition is_not (x : ascii) (c : ascii) : bool := negb (Ascii.eqb c x).

(** *** Strings *)

Fixpoint take (n : nat) (s : string) : string :=
  match n, s with
  | S n', String c s' => String c (take n' s')
  | _, _ => EmptyString
  end.

Fixpoint drop (n : nat) (s : string) : string :=
  match n, s with
  | S n', String _ s' => drop n' s'
  | _, _ => s
  end.

(** The text of [s] in front of its suffix [rest]. *)
Definition consumed (s rest : string) : string :=
  take (String.length s - String.length rest) s.

(** [strip_prefix p s] is [Some r] when [s = p ++ r]. *)
Fixpoint strip_prefix (p s : string) : option string :=
  match p with
  | EmptyString => Some s
  | String a p' =>
      match s with
      | EmptyString => None
      | String b s' => if Ascii.eqb a b then strip_prefix p' s' else None
      end
  end.

(** The first occurrence of [pat] in [s] ([String.prototype.indexOf]):
    the text before it and the text after it. *)
Fixpoint find_sub (pat s : string) : option (string * string) :=
  match strip_prefix pat s with
  | Some rest => Some (EmptyString, rest)
  | None =>
      match s with
      | EmptyString => None
      | String c s' =>
          match find_sub pat s' with
          | Some (before, after) => Some (String c before, after)
          | None => None
          end
      end
  end.

(** [s.includes(pat)] *)
Definition includes (s pat : string) : bool :=
  match find_sub pat s with Some _ => true | None => false end.

(** [s.replace(pat, repl)] with a string pattern: the first occurrence only. *)
Definition replace_first (pat repl s : string) : string :=
  match find_sub pat s with
  | Some (before, after) => before ++ repl ++ after
  | None => s
  end.

(** [s.split(sep)] for a non-empty separator.  Every separator found
    consumes a character, so [length s] rounds are enough. *)
Fixpoint split_fuel (fuel : nat) (sep s : string) : list string :=
  match fuel with
  | O => [s]
  | S fuel' =>
      match find_sub sep s with
      | Some (before, after) => before :: split_fuel fuel' sep after
      | None => [s]
      end
  end.

Definition split (sep s : string) : list string :=
  split_fuel (String.length s) sep s.

(** [`${x}`] for a value that may be [undefined]. *)
Definition tpl (x : option string) : string :=
  match x with Some s => s | None => "undefined" end.

(** JavaScript truthiness of a string that may be [undefined]. *)
Definition truthy_str (x : option string) : bool :=
  match x with
  | Some EmptyString | None => false
  | Some _ => true
  end.

(** JavaScript truthiness of a number that may be [undefined]. *)
Definition truthy_num (x : option Z) : bool :=
  match x with
  | Some n => negb (n =? 0)
  | None => false
  end.

(** *** Numbers and their decimal text *)

(** [String(n)] for an integer [n] (below 10^21 in absolute value, where
    the engine still prints all digits). *)
Definition num_to_string (n : Z) : string :=
  NilZero.string_of_int (Z.to_int n).

Definition num_opt_to_string (x : option Z) : string :=
  match x with Some n => num_to_string n | None => "undefined" end.

Definition digit_value (c : ascii) : Z := Z.of_N (code c) - 48.

Definition hex_digit_value (c : ascii) : option Z :=
  if is_digit c then Some (digit_value c)
  else if in_range 97 102 c then Some (Z.of_N (code c) - 87)
  else if in_range 65 70 c then Some (Z.of_N (code c) - 55)
  else None.

(** The longest run of decimal digits at the head of [s], read left to
    right; [None] when there is none. *)
Fixpoint read_digits (acc : option Z) (s : string) : option Z :=
  match s with
  | String c s' =>
      if is_digit c
      then read_digits (Some (10 * match acc with Some a => a | None => 0 end + digit_value c)) s'
      else acc
  | EmptyString => acc
  end.

Fixpoint read_hex_digits (acc : option Z) (s : string) : option Z :=
  match s with
  | String c s' =>
      match hex_digit_value c with
      | Some d => read_hex_digits (Some (16 * match acc with Some a => a | None => 0 end + d)) s'
      | None => acc
      end
  | EmptyString => acc
  end.

Fixpoint skip_spaces (s : string) : string :=
  match s with
  | String c s' => if is_space c then skip_spaces s' else s
  | EmptyString => s
  end.

(** The digits after the sign: hexadecimal after a ["0x"] or ["0X"]
    prefix, decimal otherwise. *)
Definition read_unsigned (s : string) : option Z :=
  match s with
  | String c0 (String c1 s') =>
      if (Ascii.eqb c0 "0" && (Ascii.eqb c1 "x" || Ascii.eqb c1 "X"))%bool
      then read_hex_digits None s'
      else read_digits None s
  | _ => read_digits None s
  end.

(** [parseInt(s)] with no radix argument; [None] is [NaN]. *)
Definition parseInt (s : string) : option Z :=
  match skip_spaces s with
  | String c s' =>
      if Ascii.eqb c "-" then option_map Z.opp (read_unsigned s')
      else if Ascii.eqb c "+" then read_unsigned s'
      else read_unsigned (String c s')
  | EmptyString => None
  end.

(** [parseInt(x)] for an argument that may be [undefined]: the argument is
    first converted to the text ["undefined"], which has no digits. *)
Definition parseInt_opt (x : option string) : option Z := parseInt (tpl x).

(** *** Regular expressions *)

(** The constructs that occur in the program's four regular expressions.
    Every starred item in them is a single character class. *)
Inductive regex :=
| Lit (s : string)                    (* literal text *)
| Seq (r1 r2 : regex)                 (* r1 r2 *)
| Alt (r1 r2 : regex)                 (* r1|r2 *)
| Opt (r : regex)                     (* (?:r)? *)
| Star (p : ascii -> bool)            (* p* *)
| StarLazy (p : ascii -> bool)        (* p*? *)
| Rep (n : nat) (p : ascii -> bool)   (* p{n} *)
| Group (r : regex).                  (* (r), capturing *)

(** What a successful match leaves: the unread input and the captures. *)
Definition mstate : Type := string * list string.

Section Matcher.
Variable k : string -> option mstate.

Fixpoint star_greedy (p : ascii -> bool) (s : string) : option mstate :=
  match s with
  | String c s' =>
      if p c
      then match star_greedy p s' with
           | Some m => Some m
           | None => k s
           end
      else k s
  | EmptyString => k s
  end.

Fixpoint star_lazy (p : ascii -> bool) (s : string) : option mstate :=
  match k s with
  | Some m => Some m
  | None =>
      match s with
      | String c s' => if p c then star_lazy p s' else None
      | EmptyString => None
      end
  end.

Fixpoint rep (n : nat) (p : ascii -> bool) (s : string) : option mstate :=
  match n with
  | O => k s
  | S n' =>
      match s with
      | String c s' => if p c then rep n' p s' else None
      | EmptyString => None
      end
  end.
End Matcher.

(** [run r s caps k]: match [r] at the head of [s], then continue with [k];
    a failure of [k] backtracks into [r]. *)
Fixpoint run (r : regex) (s : string) (caps : list string)
    (k : string -> list string -> option mstate) : option mstate :=
  match r with
  | Lit l =>
      match strip_prefix l s with
      | Some rest => k rest caps
      | None => None
      end
  | Seq r1 r2 => run r1 s caps (fun s1 caps1 => run r2 s1 caps1 k)
  | Alt r1 r2 =>
      match run r1 s caps k with
      | Some m => Some m
      | None => run r2 s caps k
      end
  | Opt r1 =>
      match run r1 s caps k with
      | Some m => Some m
      | None => k s caps
      end
  | Star p => star_greedy (fun rest => k rest caps) p s
  | StarLazy p => star_lazy (fun rest => k rest caps) p s
  | Rep n p => rep (fun rest => k rest caps) n p s
  | Group r1 =>
      run r1 s caps (fun rest caps1 => k rest (caps1 ++ [consumed s rest])%list)
  end.

Definition accept : string -> list string -> option mstate :=
  fun rest caps => Some (rest, caps).

(** A match array: element 0 is the matched text, then the captures. *)
Definition match_array : Type := string * list string.

(** A match that has to start at the head of [s] (a pattern with [^]). *)
Definition match_at (r : regex) (s : string) : option match_array :=
  match run r s [] accept with
  | Some (rest, caps) => Some (consumed s rest, caps)
  | None => None
  end.

(** [s.match(r)] for a pattern without [^] and without the [g] flag: the
    leftmost start position that matches. *)
Fixpoint search (r : regex) (s : string) : option match_array :=
  match match_at r s with
  | Some m => Some m
  | None =>
      match s with
      | String _ s' => search r s'
      | EmptyString => None
      end
  end.

(** [s.replace(r, repl)] with the [g] flag: every match, left to right,
    without overlap. *)
Fixpoint replace_all_fuel (fuel : nat) (r : regex) (repl s : string) : string :=
  match fuel with
  | O => s
  | S fuel' =>
      match match_at r s with
      | Some (String c m, _) =>
          repl ++ replace_all_fuel fuel' r repl (drop (String.length (String c m)) s)
      | Some (EmptyString, _) =>
          match s with
          | String c s' => repl ++ String c (replace_all_fuel fuel' r repl s')
          | EmptyString => repl
          end
      | None =>
          match s with
          | String c s' => String c (replace_all_fuel fuel' r repl s')
          | EmptyString => EmptyString
          end
      end
  end.

Definition replace_all (r : regex) (repl s : string) : string :=
  replace_all_fuel (S (String.length s)) r repl s.

(** *** Arrays *)

(** [arr.sort(cmp)]: the sort is stable, and for a comparator that is a
    difference of keys the result is the stable ordering by that key. *)
Section Sort.
Context {A : Type}.
Variable cmp : A -> A -> Z.

Fixpoint insert_sorted (x : A) (l : list A) : list A :=
  match l with
  | [] => [x]
  | y :: l' => if cmp x y <=? 0 then x :: l else y :: insert_sorted x l'
  end.

Definition sort (l : list A) : list A := fold_right insert_sorted [] l.
End Sort.

(** [arr.indexOf(x)] on an array of strings; -1 when absent. *)
Fixpoint indexOf (l : list string) (x : string) : Z :=
  match l with
  | [] => -1
  | y :: l' =>
      if String.eqb y x then 0
      else match indexOf l' x with
           | -1 => -1
           | i => i + 1
           end
  end.

(** *** Objects used as records of string keys *)

(** Property order is insertion order; assigning to an existing key keeps
    its place. *)
Definition object (V : Type) : Type := list (string * V).

Fixpoint obj_set {V} (o : object V) (key : string) (v : V) : object V :=
  match o with
  | [] => [(key, v)]
  | (k0, v0) :: o' =>
      if String.eqb k0 key then (k0, v) :: o' else (k0, v0) :: obj_set o' key v
  end.

Fixpoint obj_get {V} (o : object V) (key : string) : option V :=
  match o with
  | [] => None
  | (k0, v0) :: o' => if String.eqb k0 key then Some v0 else obj_get o' key
  end.

Definition obj_keys {V} (o : object V) : list string := map fst o.

End Js.

Import Js.

(** ** [extractYoutubeURL] *)

(** [[\w-]] *)
Definition id_char (c : ascii) : bool := (is_word c || Ascii.eqb c "-")%bool.

(** The pattern of the source, written here with blanks between its parts:
      ( https?:\/\/ (?:(?:www|music)\.)?
        (?:youtube\.com\/(?:watch\?v=|shorts\/)|youtu\.be\/)
        [\w-]{11} [^\s]* ) *)
Definition youtubeRegex : regex :=
  Group
    (Seq (Lit "http") (Seq (Opt (Lit "s")) (Seq (Lit "://")
    (Seq (Opt (Seq (Alt (Lit "www") (Lit "music")) (Lit ".")))
    (Seq (Alt (Seq (Lit "youtube.com/") (Alt (Lit "watch?v=") (Lit "shorts/")))
              (Lit "youtu.be/"))
    (Seq (Rep 11 id_char) (Star non_space))))))).

(** [match ? match[0] : undefined] *)
Definition extractYoutubeURL (text : string) : option string :=
  match search youtubeRegex text with
  | Some (whole, _) => Some whole
  | None => None
  end.

(** ** [getQualityID] *)

Definition allowedFormats : list string :=
  ["144p"; "240p"; "360p"; "480p"; "720p"; "1080p"; "1440p"; "4K"].

Record quality_level := { threshold : Z; label : string }.

Definition QUALITY_LEVELS : list quality_level :=
  [ {| threshold := 360; label := "240p" |};
    {| threshold := 480; label := "360p" |};
    {| threshold := 720; label := "480p" |};
    {| threshold := 1080; label := "720p" |};
    {| threshold := 1440; label := "1080p" |};
    {| threshold := 2160; label := "1440p" |};
    {| threshold := 4320; label := "4K" |} ].

(** The [for ... of] loop with its early [return]. *)
Fixpoint first_level (levels : list quality_level) (height : Z) : option string :=
  match levels with
  | [] => None
  | level :: rest =>
      if height <? threshold level then Some (label level)
      else first_level rest height
  end.

Definition getQualityID (height : Z) : string :=
  match first_level QUALITY_LEVELS height with
  | Some l => l
  | None => "4K"
  end.

(** ** Descriptions *)

(** The line feed, ["\n"]. *)
Definition nl : string := String "010"%char EmptyString.

Definition getDurationString (totalSeconds : Z) : string :=
  let seconds := Z.rem totalSeconds 60 in
  let hours := totalSeconds / 3600 in
  let minutes := Z.rem totalSeconds 3600 / 60 in
  if 0 <? hours
  then num_to_string hours ++ "h " ++ num_to_string minutes ++ "m "
       ++ num_to_string seconds ++ "s"
  else num_to_string minutes ++ "m " ++ num_to_string seconds ++ "s".

(** The fields of ytdlp's [VideoInfo] that the bot reads. *)
Record FormatEntry := {
  format_id : string;
  vcodec : option string;
  acodec : option string;
  filesize : option Z;
  height : option Z;
  width : option Z
}.

Record VideoInfo := {
  info_id : string;
  info_title : string;
  info_uploader : string;
  info_duration : Z;
  info_formats : list FormatEntry
}.

Definition generateDescription (info : VideoInfo) : string :=
  "<b>[" ++ getDurationString (info_duration info) ++ "]</b> " ++ info_title info
  ++ nl ++ "By <b>" ++ info_uploader info ++ "</b>".

(** ** Error messages *)

Inductive errorCategory := atGettingInfo | atDownload | badURL.

Definition errorMessages (c : errorCategory) : string :=
  match c with
  | atGettingInfo =>
      "Failed to obtain info from a YouTube video. Try again, and if not some coding fuckup, the error is either:" ++ nl ++ nl
      ++ "        1. Network connection issue, try again soon" ++ nl ++ nl
      ++ "        2. An issue with how YouTube processes YT-DLP requests - try again, and if the error repeats means I have to add some workarounds."
  | atDownload =>
      "Encountered an error when downloading the file, try again; if it repeats, it's most likely either one of these:" ++ nl ++ nl
      ++ "        1. <b>You tried to download a large file which either takes 500 seconds to properly upload or weights more than 2GB.</b> " ++ nl
      ++ "        Both are internal limitations that I can't change, so reduce the filesize or use /format to simply format the YouTube link" ++ nl
      ++ "        and send it this way." ++ nl ++ nl
      ++ "        2. <b>A code issue on my size.</b>" ++ nl ++ nl
      ++ "        3. <b>A deeper issue with YT-DLP.</b> This is the library I use for downloading the video, and I have no control over it." ++ nl
      ++ "        If it fails consistently, it most likely indicates a change in how YouTube processes YT-DLP requests and possibly mean " ++ nl
      ++ "        that the bot can no longer function."
  | badURL =>
      "The URL you inputted is invalid. The bot only accepts valid YouTube links."
  end.

(** [/<[^>]*>/g] *)
Definition tagRegex : regex :=
  Seq (Lit "<") (Seq (Star (is_not ">")) (Lit ">")).

Definition fullErrorMessage (c : errorCategory) (e : error) : string :=
  let sanitizedError := replace_all tagRegex "" (error_to_string e) in
  errorMessages c ++ nl ++ "Error log: " ++ sanitizedError.

(** The reply of a handler whose text has no YouTube link. *)
Definition noURLReply : string :=
  "I can only process YouTube links. Send any YouTube link to receive an auto-formatted response, or request a specific result using commands.".

(** ** The file system and the log, threaded through the handlers *)

Inductive event :=
| Log (prefix msg : string)
| LogError (prefix msg : string)
| UnlinkCall (path : string)
| ReadCall (path : string)
| WriteCall (path : string).

Record world := {
  files : object string;         (* path to content *)
  trace : list event;            (* oldest first *)
  write_error : string -> option error
                                 (* what a write at a path is refused with:
                                    no such directory, no permission, ... *)
}.

Definition M (A : Type) : Type := world -> completion A * world.

Definition ret {A} (a : A) : M A := fun w => (Normal a, w).

Definition bindM {A B} (m : M A) (f : A -> M B) : M B :=
  fun w =>
    match m w with
    | (Normal a, w') => f a w'
    | (Throw e, w') => (Throw e, w')
    end.

Definition raise {A} (e : error) : M A := fun w => (Throw e, w).

(** [try { body } catch (e) { handler(e) }] *)
Definition try_catch {A} (body : M A) (handler : error -> M A) : M A :=
  fun w =>
    match body w with
    | (Normal a, w') => (Normal a, w')
    | (Throw e, w') => handler e w'
    end.

Declare Scope js_scope.
Delimit Scope js_scope with js.
Notation "x <- m ;; k" := (bindM m (fun x => k))
  (at level 61, m at next level, right associativity) : js_scope.
Notation "m ;;; k" := (bindM m (fun _ => k))
  (at level 61, right associativity) : js_scope.

Definition emit (e : event) : M unit :=
  fun w => (Normal tt, {| files := files w; trace := (trace w ++ [e])%list;
                          write_error := write_error w |}).

Fixpoint obj_remove {V} (o : object V) (key : string) : object V :=
  match o with
  | [] => []
  | (k0, v0) :: o' =>
      if String.eqb k0 key then o' else (k0, v0) :: obj_remove o' key
  end.

(** [unlinkSync(path)]: throws when there is no such file. *)
Definition unlinkSync (path : string) : M unit :=
  fun w =>
    let tr := (trace w ++ [UnlinkCall path])%list in
    match obj_get (files w) path with
    | Some _ => (Normal tt, {| files := obj_remove (files w) path; trace := tr;
                               write_error := write_error w |})
    | None => (Throw (IOError "ENOENT" path),
               {| files := files w; trace := tr; write_error := write_error w |})
    end.

(** [readFileSync(path).toString()]: throws when there is no such file. *)
Definition readFileSync (path : string) : M string :=
  fun w =>
    let w' := {| files := files w; trace := (trace w ++ [ReadCall path])%list;
                 write_error := write_error w |} in
    match obj_get (files w) path with
    | Some content => (Normal content, w')
    | None => (Throw (IOError "ENOENT" path), w')
    end.

(** [writeFileSync(path, content)]: throws what the file system refuses
    the write with, and then leaves the files as they are. *)
Definition writeFileSync (path content : string) : M unit :=
  fun w =>
    let tr := (trace w ++ [WriteCall path])%list in
    match write_error w path with
    | Some e => (Throw e, {| files := files w; trace := tr;
                             write_error := write_error w |})
    | None => (Normal tt, {| files := obj_set (files w) path content; trace := tr;
                             write_error := write_error w |})
    end.

(** A file system that accepts every write. *)
Definition accepts_writes : string -> option error := fun _ => None.

(** [path.join(process.cwd(), name)] for a plain file name. *)
Definition path_join (cwd name : string) : string := cwd ++ "/" ++ name.

(** ** [class CallbackQueryHandler] *)

Module CallbackQueryHandler.

Record t := {
  inline_msg_id : Z;
  chat_id : Z;
  original_user_msg_id : option Z;   (* [None] is [NaN] *)
  video_id : option string;
  url : string;
  format : option string;
  duration : option string;
  height : option string;
  width : option string;
  isAudio : bool;
  storedFileName : string;
  storedFilePath : string;
  thumbFilePath : string;
  descrFilePath : string
}.

(** The constructor.  [data] is [ctx.callbackQuery.data], [cwd] is
    [process.cwd()].  The array destructuring gives [undefined] for a
    missing element. *)
Definition new (cwd : string) (msg_id chat : Z) (data : string) : t :=
  let parts := split "|" data in
  let video_id := nth_error parts 0 in
  let format := nth_error parts 1 in
  let duration := nth_error parts 2 in
  let height := nth_error parts 3 in
  let width := nth_error parts 4 in
  let original_user_msg_id := nth_error parts 5 in
  let isAudio := (negb (truthy_str height) && negb (truthy_str width))%bool in
  let storedFileName := tpl video_id ++ "." ++ (if isAudio then "m4a" else "mp4") in
  let storedFilePath := path_join cwd storedFileName in
  {| inline_msg_id := msg_id;
     chat_id := chat;
     original_user_msg_id := parseInt_opt original_user_msg_id;
     video_id := video_id;
     url := "https://youtube.com/watch?v=" ++ tpl video_id;
     format := format;
     duration := duration;
     height := height;
     width := width;
     isAudio := isAudio;
     storedFileName := storedFileName;
     storedFilePath := storedFilePath;
     thumbFilePath :=
       if isAudio then storedFilePath ++ ".jpg"
       else path_join cwd (tpl video_id ++ ".jpg");
     descrFilePath := path_join cwd (tpl video_id ++ "-descr.txt") |}.

(** What [send] hands to the messaging API. *)
Inductive outgoing :=
| ReplyWithVideo (file cover : string) (h w d : option Z) (caption : string)
| ReplyWithAudio (file : string) (title performer : option string)
                 (d : option Z) (thumbnail : string).

(** The pattern of the title line, with blanks between its parts:
      ^ <b>\[ .*? \]<\/b> \s* ( .* ) *)
Definition titleRegex : regex :=
  Seq (Lit "<b>[") (Seq (StarLazy dot) (Seq (Lit "]</b>")
  (Seq (Star is_space) (Group (Star dot))))).

(** The pattern of the author line:  ^By <b>(.*?)<\/b>  *)
Definition authorRegex : regex :=
  Seq (Lit "By <b>") (Seq (Group (StarLazy dot)) (Lit "</b>")).

(** [m?.[1]] *)
Definition capture1 (m : option match_array) : option string :=
  match m with
  | Some (_, c :: _) => Some c
  | _ => None
  end.

(** [x || y] on strings that may be [undefined]. *)
Definition js_or (x y : option string) : option string :=
  if truthy_str x then x else y.

(** [descrLines[i].match(r)]: a property read of [undefined] when the
    line is missing. *)
Definition line_match (descrLines : list string) (i : nat) (r : regex)
  : completion (option match_array) :=
  match nth_error descrLines i with
  | Some line => Normal (match_at r line)
  | None => Throw (TypeError "Cannot read properties of undefined (reading 'match')")
  end.

(** The [if (hasDescription) { ... }] block of the audio branch. *)
Definition audioTags (vid : option string) (videoDescr : string)
  : completion (option string * option string) :=
  let descrLines := split nl videoDescr in
  bind (line_match descrLines 0 titleRegex) (fun titleMatch =>
  let title := js_or (capture1 titleMatch) vid in
  bind (line_match descrLines 1 authorRegex) (fun authorMatch =>
  let author :=
    js_or (option_map (replace_first " - Topic" "") (capture1 authorMatch))
          (Some "Unknown Artist") in
  Normal (title, author))).

Definition logPrefix (subprocess : string) : string :=
  "[CallbackQueryHandler|" ++ subprocess ++ "]".

Local Open Scope js_scope.

Definition send (h : t) : M outgoing :=
  emit (Log (logPrefix "send")
          ("Successfully donwloaded " ++ tpl (video_id h)
           ++ " into temporary file " ++ storedFilePath h)) ;;;
  emit (Log (logPrefix "send") ("Sending file: " ++ storedFileName h)) ;;;
  r <- try_catch
         (videoDescr <- readFileSync (descrFilePath h) ;;
          emit (Log (logPrefix "send")
                  ("Read video description from " ++ descrFilePath h)) ;;;
          ret (videoDescr, true))
         (fun readErr =>
          emit (LogError (logPrefix "send")
                  ("Could not read description file for " ++ tpl (video_id h)
                   ++ ", continuing regardless." ++ nl ++ " "
                   ++ error_to_string readErr)) ;;;
          ret (EmptyString, false)) ;;
  let '(videoDescr, hasDescription) := r in
  if negb (isAudio h)
  then ret (ReplyWithVideo (storedFilePath h) (thumbFilePath h)
              (parseInt_opt (height h)) (parseInt_opt (width h))
              (parseInt_opt (duration h)) videoDescr)
  else
    tags <- (if hasDescription : bool
             then (fun w => (audioTags (video_id h) videoDescr, w)) : M _
             else ret (Some EmptyString, Some EmptyString)) ;;
    ret (ReplyWithAudio (storedFilePath h) (fst tags) (snd tags)
           (parseInt_opt (duration h)) (thumbFilePath h)).

Definition cleanUpFiles (h : t) : M unit :=
  emit (Log (logPrefix "cleanUpFiles") "Starting cleanup of temporary files...") ;;;
  try_catch
    (unlinkSync (storedFilePath h) ;;;
     emit (Log (logPrefix "cleanUpFiles")
             ("Temporary file " ++ storedFilePath h ++ " deleted successfully.")) ;;;
     unlinkSync (thumbFilePath h) ;;;
     emit (Log (logPrefix "cleanUpFiles")
             ("Temporary file " ++ thumbFilePath h ++ " deleted successfully.")) ;;;
     unlinkSync (descrFilePath h) ;;;
     emit (Log (logPrefix "cleanUpFiles")
             ("Temporary file " ++ descrFilePath h ++ " deleted successfully.")))
    (fun cleanupErr =>
     emit (LogError (logPrefix "cleanUpFiles")
             ("Error deleting temporary files. Continuing regardless. "
              ++ error_to_string cleanupErr))) ;;;
  emit (Log (logPrefix "cleanUpFiles") "Cleanup complete.").

(** What the collaborators of [handle] do: the download of the tool (how
    it settles and the files it leaves behind), the upload of the reply, and
    the deletion of a message of a chat. *)
Record collaborators := {
  execAsync : object string -> completion string * object string;
  reply : outgoing -> completion unit;
  deleteMessage : Z -> option Z -> completion unit
}.

(** What [handle] did to the chat: the texts the status message was edited
    to, and the messages deleted, both in order. *)
Record handled := {
  informs : list string;
  deleted : list (option Z)
}.

(** [`${n}`] of a number that may be [NaN]. *)
Definition nan_to_string (x : option Z) : string :=
  match x with Some n => num_to_string n | None => "NaN" end.

(** The [catch] of [handle]. *)
Definition on_failure (h : t) (e : error) (done : handled) : M handled :=
  fun w =>
    let w1 := snd (emit (LogError "[CallbackQueryHandler]" (error_to_string e)) w) in
    let w2 := snd (cleanUpFiles h w1) in
    (Normal {| informs := (informs done ++ [fullErrorMessage atDownload e])%list;
               deleted := deleted done |}, w2).

(** [handle]: download, send, clean up, delete the two messages; whatever
    rejects on the way goes to the [catch]. *)
Definition handle (k : collaborators) (h : t) : M handled :=
  fun w =>
    let w0 := snd (emit (Log "[CallbackQueryHandler]"
                           ("Started downloading video for " ++ tpl (video_id h))) w) in
    let downloading := {| informs := ["Downloading..."]; deleted := [] |} in
    let '(r, fs) := execAsync k (files w0) in
    let w1 := {| files := fs; trace := trace w0; write_error := write_error w0 |} in
    match r with
    | Throw e => on_failure h e downloading w1
    | Normal logs =>
        let w2 := snd (emit (Log "[CallbackQueryHandler]" logs) w1) in
        let uploading :=
          {| informs := ["Downloading..."; "Download complete, uploading..."];
             deleted := [] |} in
        match send h w2 with
        | (Throw e, w3) => on_failure h e uploading w3
        | (Normal out, w3) =>
            match reply k out with
            | Throw e => on_failure h e uploading w3
            | Normal _ =>
                let w4 := snd (cleanUpFiles h w3) in
                let w5 :=
                  snd (emit (Log "[CallbackQueryHandler]"
                          ("Trying to delete inline message "
                           ++ num_to_string (inline_msg_id h)
                           ++ " and original user message "
                           ++ nan_to_string (original_user_msg_id h))) w4) in
                match deleteMessage k (chat_id h) (original_user_msg_id h) with
                | Throw e => on_failure h e uploading w5
                | Normal _ =>
                    let one :=
                      {| informs := informs uploading;
                         deleted := [original_user_msg_id h] |} in
                    match deleteMessage k (chat_id h) (Some (inline_msg_id h)) with
                    | Throw e => on_failure h e one w5
                    | Normal _ =>
                        (Normal {| informs := informs uploading;
                                   deleted := [original_user_msg_id h;
                                               Some (inline_msg_id h)] |}, w5)
                    end
                end
            end
        end
    end.

End CallbackQueryHandler.

(** ** [class URLMessageHandler] *)

Module URLMessageHandler.

Record t := {
  valid : bool;
  url : string;
  user_msg_id : Z
}.

(** The constructor; the second component is the reply it sends when the
    text has no YouTube link. *)
Definition new (message_id : Z) (text : string) : t * option string :=
  match extractYoutubeURL text with
  | None => ({| valid := false; url := ""; user_msg_id := message_id |},
             Some noURLReply)
  | Some u => ({| valid := true; url := u; user_msg_id := message_id |}, None)
  end.

(** [f.vcodec != "none"], also true of a missing codec. *)
Definition codec_present (c : option string) : bool :=
  match c with
  | Some s => negb (String.eqb s "none")
  | None => true
  end.

(** [f.filesize!], [f.height!]: read only on entries that passed the filter
    on the same field. *)
Definition size_of (f : FormatEntry) : Z :=
  match filesize f with Some n => n | None => 0 end.

Definition height_of (f : FormatEntry) : Z :=
  match height f with Some n => n | None => 0 end.

Definition is_video_candidate (f : FormatEntry) : bool :=
  (codec_present (vcodec f) && truthy_num (filesize f) && truthy_num (height f))%bool.

Definition is_audio_candidate (f : FormatEntry) : bool :=
  (codec_present (acodec f) && truthy_num (filesize f))%bool.

(** [[fID, filesize, h, w]] *)
Definition tier_entry : Type := string * Z * Z * option Z.

Record processingResult := {
  video_id : string;
  existingFormats : object tier_entry;
  largest_audio : option FormatEntry
}.

(** The [forEach] that fills [existingFormats]. *)
Definition record_format (acc : object tier_entry) (f : FormatEntry) : object tier_entry :=
  let h := height_of f in
  let w := width f in
  let fID := format_id f in
  let filesize := size_of f in
  obj_set acc (getQualityID h) (fID, filesize, h, w).

Definition videoformats (formats : list FormatEntry) : list FormatEntry :=
  sort (fun a b => size_of a - size_of b) (filter is_video_candidate formats).

Definition find_largest_audio (formats : list FormatEntry) : option FormatEntry :=
  hd_error (sort (fun a b => size_of b - size_of a) (filter is_audio_candidate formats)).

Definition tier_ladder (formats : list FormatEntry) : object tier_entry :=
  fold_left record_format (videoformats formats) [].

Definition logPrefix (subprocess : string) : string :=
  "[MessageHandler|" ++ subprocess ++ "]".

Local Open Scope js_scope.

(** [cwd] is [process.cwd()], against which the relative path of the
    description file is resolved. *)
Definition processVideoInfo (cwd : string) (h : t) (info : VideoInfo)
  : M processingResult :=
  let video_id := info_id info in
  let existingFormats := tier_ladder (info_formats info) in
  let largest_audio := find_largest_audio (info_formats info) in
  let videoDescr := generateDescription info ++ nl ++ url h in
  try_catch
    (writeFileSync (path_join cwd (video_id ++ "-descr.txt")) videoDescr ;;;
     emit (Log (logPrefix "processVideoInfo")
             ("Successfully wrote description for " ++ video_id ++ " to file.")))
    (fun writeErr =>
     emit (LogError (logPrefix "processVideoInfo")
             ("Could not write description file for " ++ video_id ++ ": "
              ++ error_to_string writeErr))) ;;;
  ret {| video_id := video_id;
         existingFormats := existingFormats;
         largest_audio := largest_audio |}.

Local Close Scope js_scope.

(** *** [formatSize]

    The byte counts are integers, so [kb = bytes / 1024] and
    [kb / Math.pow(1024, i)] are exact dyadic rationals; they are kept here
    as the numerator [bytes] over a power of 1024. *)

(** [Math.floor(Math.log(kb) / Math.log(1024))] for [0 < bytes]: the exact
    value, which is what the floating point quotient floors to for every
    byte count below 1024^4.  Further up the rounding of [Math.log] shows:
    just below 1024^5 the quotient of the code is already 4.  The
    properties of [formatSize] are therefore stated below 1024^4. *)
Definition unit_index (bytes : Z) : Z := Z.log2 bytes / 10 - 1.

(** [x.toFixed(1)] picks the integer [n] with [n / 10] nearest to [x], the
    larger one on a tie.  Here [x = num / den]. *)
Definition nearest_tenths (num den : Z) : Z := (20 * num + den) / (2 * den).

(** [`${parseFloat(x.toFixed(1))}`]: the digits of [n / 10], where the
    number conversion has dropped a fractional part that is zero. *)
Definition tenths_to_string (n : Z) : string :=
  if n mod 10 =? 0 then num_to_string (n / 10)
  else num_to_string (n / 10) ++ "." ++ num_to_string (n mod 10).

Definition sizes : list string := ["KB"; "MB"; "GB"].

(** [`${sizes[i]}`] *)
Definition sizes_at (i : Z) : string :=
  if i <? 0 then "undefined" else tpl (nth_error sizes (Z.to_nat i)).

Definition formatSize (bytes : Z) : string :=
  if bytes <=? 0 then "NaNundefined"
  else
    let i := unit_index bytes in
    let formattedSize := tenths_to_string (nearest_tenths bytes (1024 ^ (i + 1))) in
    formattedSize ++ sizes_at i.

(** *** [buildInlineKeyboard] *)

(** A button: its label and its callback data.  The two signs of the
    labels that lie outside the code unit range of [string] stand there as
    their UTF-8 bytes. *)
Definition button : Type := string * string.

(** The rows of an [InlineKeyboard]. *)
Definition keyboard : Type := list (list button).

(** The callback data of both kinds of button: six interpolations with a
    ["|"] between them. *)
Definition callback_data (vid fmt dur h w msg : string) : string :=
  vid ++ "|" ++ fmt ++ "|" ++ dur ++ "|" ++ h ++ "|" ++ w ++ "|" ++ msg.

Definition music_button (h : t) (info : VideoInfo) (audio_size : Z) : button :=
  ("Music (≈" ++ formatSize audio_size ++ ")",
   callback_data (info_id info) "ba" (num_to_string (info_duration info))
     "" "" (num_to_string (user_msg_id h))).

Definition tier_button (h : t) (info : VideoInfo) (vid : string) (audio_size : Z)
    (e : string * tier_entry) : button :=
  let '(res, (id, size, hh, w)) := e in
  (res ++ " (≤" ++ formatSize (size + audio_size) ++ ")",
   callback_data vid (id ++ "+ba") (num_to_string (info_duration info))
     (num_to_string hh) (num_opt_to_string w) (num_to_string (user_msg_id h))).

(** [Object.entries(existingFormats).sort(...)] *)
Definition sorted_entries (o : object tier_entry) : list (string * tier_entry) :=
  sort (fun e1 e2 => indexOf allowedFormats (fst e1) - indexOf allowedFormats (fst e2)) o.

(** Reading [largest_audio.filesize] throws when [largest_audio] is
    [undefined]. *)
Definition buildInlineKeyboard (h : t) (info : VideoInfo) (r : processingResult)
  : completion keyboard :=
  match largest_audio r with
  | None => Throw (TypeError "Cannot read properties of undefined (reading 'filesize')")
  | Some la =>
      Normal ([music_button h info (size_of la)]
              :: map (fun e => [tier_button h info (video_id r) (size_of la) e])
                     (sorted_entries (existingFormats r)))
  end.

(** *** [handle] *)

(** What the status message is edited to. *)
Inductive status :=
| SelectOption (reply_markup : keyboard)
| ErrorText (msg : string).

(** The [catch] of [handle]. *)
Definition on_fetch_error (e : error) : status :=
  if includes (error_to_string e) "not a valid URL"
  then ErrorText (fullErrorMessage badURL e)
  else ErrorText (fullErrorMessage atGettingInfo e).

(** [handle], given how [fetchVideoInfo] settled.  An exception thrown in
    the [then] callback rejects the chain and reaches the same [catch]. *)
Definition handle (cwd : string) (h : t) (fetched : completion VideoInfo)
  : M status :=
  match fetched with
  | Throw e => ret (on_fetch_error e)
  | Normal info =>
      fun w =>
        let '(r, w') := processVideoInfo cwd h info w in
        match bind r (buildInlineKeyboard h info) with
        | Normal kb => (Normal (SelectOption kb), w')
        | Throw e => (Normal (on_fetch_error e), w')
        end
  end.

End URLMessageHandler.

(** ** [class FormatCommandHandler] *)

Module FormatCommandHandler.

Record t := {
  valid : bool;
  url : string
}.

(** The constructor.  [extractYoutubeURL] is called on element 1 of the
    split text; when that element is missing the call reads [text.match] on
    [undefined]. *)
Definition new (text : string) : completion (t * option string) :=
  match nth_error (split "/format " text) 1 with
  | None => Throw (TypeError "Cannot read properties of undefined (reading 'match')")
  | Some arg =>
      match extractYoutubeURL arg with
      | None => Normal ({| valid := false; url := "" |}, Some noURLReply)
      | Some u => Normal ({| valid := true; url := u |}, None)
      end
  end.

(** What the status message is edited to. *)
Inductive status :=
| Description (text : string)
| ErrorText (msg : string).

(** The [catch] of [handle]. *)
Definition on_fetch_error (e : error) : status :=
  if includes (error_to_string e) "not a valid URL"
  then ErrorText (fullErrorMessage badURL e)
  else ErrorText (fullErrorMessage atGettingInfo e).

(** [handle], given how the metadata call settled. *)
Definition handle (h : t) (fetched : completion VideoInfo) : status :=
  match fetched with
  | Normal info => Description (generateDescription info ++ nl ++ url h)
  | Throw e => on_fetch_error e
  end.

End FormatCommandHandler.

(** ** Arguments of the extraction tool *)

(** The values of the [ArgsOptions] that the bot passes. *)
Inductive arg_value :=
| ArgBool (b : bool)
| ArgString (s : string)
| ArgExtractor (e : object (list string)).

Definition ArgsOptions : Type := object arg_value.

(** [{ ...into, ...from }]: the properties of [from], in order, assigned
    over those of [into]. *)
Definition spread {V} (into from : object V) : object V :=
  fold_left (fun o kv => obj_set o (fst kv) (snd kv)) from into.

(** The two properties [ytdlpArgs] puts under the caller's. *)
Definition baseArgs (bgutil_root : string) : ArgsOptions :=
  [("extractorArgs",
    ArgExtractor [("youtubepot-bgutilhttp", ["base_url=" ++ bgutil_root])]);
   ("cookies", ArgString "cookies.txt")].

(** [bgutil_root] is [process.env.BGUTIL_ROOT]. *)
Definition ytdlpArgs (bgutil_root : string) (args : ArgsOptions) : ArgsOptions :=
  spread (baseArgs bgutil_root) args.

Definition infoArgs (bgutil_root : string) : ArgsOptions :=
  ytdlpArgs bgutil_root [("quiet", ArgBool true); ("dumpJson", ArgBool true)].

(** ** Vocabulary of the specification *)

(** [pat] occurs in [text]. *)
Definition occurs_in (pat text : string) : Prop :=
  exists a b, text = a ++ pat ++ b.

(** The [unlinkSync] calls of a trace, in order. *)
Fixpoint unlink_calls (tr : list event) : list string :=
  match tr with
  | [] => []
  | UnlinkCall path :: tr' => path :: unlink_calls tr'
  | _ :: tr' => unlink_calls tr'
  end.

(** No entry passes the audio filter: none has an audio codec other than
    ["none"] together with a known, non-zero filesize. *)
Definition has_no_audio (formats : list FormatEntry) : bool :=
  forallb (fun f => negb (URLMessageHandler.is_audio_candidate f)) formats.

(** The tier of a format entry, and the slot the ladder stores for it. *)
Definition tier_of (f : FormatEntry) : string :=
  getQualityID (URLMessageHandler.height_of f).

Definition entry_of (f : FormatEntry) : URLMessageHandler.tier_entry :=
  (format_id f, URLMessageHandler.size_of f, URLMessageHandler.height_of f, width f).

(** Every character of [s] satisfies [p]. *)
Fixpoint all_chars (p : ascii -> bool) (s : string) : bool :=
  match s with
  | EmptyString => true
  | String c s' => (p c && all_chars p s')%bool
  end.

(** The number a row of decimal digits denotes, read left to right from
    the value [acc] of the digits before it. *)
Fixpoint uint_value (acc : Z) (d : Decimal.uint) : Z :=
  match d with
  | Decimal.Nil => acc
  | Decimal.D0 d' => uint_value (10 * acc + 0) d'
  | Decimal.D1 d' => uint_value (10 * acc + 1) d'
  | Decimal.D2 d' => uint_value (10 * acc + 2) d'
  | Decimal.D3 d' => uint_value (10 * acc + 3) d'
  | Decimal.D4 d' => uint_value (10 * acc + 4) d'
  | Decimal.D5 d' => uint_value (10 * acc + 5) d'
  | Decimal.D6 d' => uint_value (10 * acc + 6) d'
  | Decimal.D7 d' => uint_value (10 * acc + 7) d'
  | Decimal.D8 d' => uint_value (10 * acc + 8) d'
  | Decimal.D9 d' => uint_value (10 * acc + 9) d'
  end.

(** [s] has no character [x] in it. *)
Definition char_free (x : ascii) (s : string) : Prop :=
  all_chars (is_not x) s = true.

(** [s] has no ["|"] in it. *)
Definition bar_free (s : string) : Prop := char_free "|" s.

(** No match of [r] begins inside [pre] when [pre] stands in front of
    [rest]. *)
Fixpoint no_match_inside (r : regex) (pre rest : string) : bool :=
  match pre with
  | EmptyString => true
  | String _ pre' =>
      match match_at r (pre ++ rest) with
      | Some _ => false
      | None => no_match_inside r pre' rest
      end
  end.

(** The words a pattern denotes, without regard to priorities. *)
Fixpoint Matches (r : regex) (w : string) : Prop :=
  match r with
  | Lit l => w = l
  | Seq r1 r2 => exists w1 w2, w = w1 ++ w2 /\ Matches r1 w1 /\ Matches r2 w2
  | Alt r1 r2 => Matches r1 w \/ Matches r2 w
  | Opt r1 => w = "" \/ Matches r1 w
  | Star p => all_chars p w = true
  | StarLazy p => all_chars p w = true
  | Rep n p => String.length w = n /\ all_chars p w = true
  | Group r1 => Matches r1 w
  end.

(** A well-formed YouTube URL, in the words of the specification: a
    scheme, an optional [www.] or [music.], one of the three hosts with its
    path, an id of 11 characters, and whatever follows up to the next white
    space. *)
Definition WellFormedURL (u : string) : Prop :=
  exists scheme sub host id tail,
    u = scheme ++ sub ++ host ++ id ++ tail
    /\ (scheme = "http://" \/ scheme = "https://")
    /\ (sub = "" \/ sub = "www." \/ sub = "music.")
    /\ (host = "youtube.com/watch?v=" \/ host = "youtube.com/shorts/"
        \/ host = "youtu.be/")
    /\ String.length id = 11%nat
    /\ all_chars id_char id = true
    /\ all_chars non_space tail = true.

(** [post] is empty or begins with a white space character: a URL in
    front of it ends there. *)
Definition at_token_end (post : string) : Prop :=
  post = "" \/ exists c rest, post = String c rest /\ is_space c = true.

(** No well-formed URL begins inside [pre] when [pre] stands in front of
    [rest]. *)
Definition no_url_begins_in (pre rest : string) : Prop :=
  forall p1 p2 v r,
    pre = p1 ++ p2 -> p2 <> "" -> p2 ++ rest = v ++ r -> ~ WellFormedURL v.

(** No part of [text] is a well-formed URL. *)
Definition contains_no_url (text : string) : Prop :=
  forall a v b, text = a ++ v ++ b -> ~ WellFormedURL v.

(** [t] is empty or begins with a character that is no white space. *)
Definition begins_without_space (t : string) : Prop :=
  match t with
  | EmptyString => True
  | String c _ => is_space c = false
  end.

(** The first description line as [generateDescription] writes it: the
    duration [d] in brackets and bold, a blank, then the title [t] up to the
    end of the line. *)
Definition title_shape (line d t : string) : Prop :=
  line = "<b>[" ++ d ++ "]</b> " ++ t
  /\ all_chars dot d = true /\ char_free "]" d
  /\ all_chars dot t = true /\ begins_without_space t.

(** The second description line: the author [a] in bold after ["By "],
    and whatever follows. *)
Definition author_shape (line a x : string) : Prop :=
  line = "By <b>" ++ a ++ "</b>" ++ x
  /\ all_chars dot a = true /\ char_free "<" a.

(** The least a line needs for the title pattern, and for the author
    pattern, to match at all. *)
Definition has_title_prefix (line : string) : Prop :=
  exists d x, line = "<b>[" ++ d ++ "]</b>" ++ x /\ all_chars dot d = true.

Definition has_author_prefix (line : string) : Prop :=
  exists a x, line = "By <b>" ++ a ++ "</b>" ++ x /\ all_chars dot a = true.

(** [rest] is empty or begins a new line. *)
Definition at_line_end (rest : string) : Prop :=
  rest = "" \/ exists r, rest = nl ++ r.

(** The position of a slot's tier in [allowedFormats]. *)
Definition tier_index (e : string * URLMessageHandler.tier_entry) : Z :=
  indexOf allowedFormats (fst e).

(** No ["<"] of [s] has a [">"] anywhere after it: [s] holds no tag. *)
Definition tag_free (s : string) : Prop :=
  forall a b c, s <> a ++ "<" ++ b ++ ">" ++ c.

(** The characters of a duration text. *)
Definition duration_char (c : ascii) : bool :=
  (is_digit c || Ascii.eqb c "-" || Ascii.eqb c "h" || Ascii.eqb c "m"
   || Ascii.eqb c "s" || Ascii.eqb c " ")%bool.

(** A title that [generateDescription] can carry on one line, and an
    uploader that it can carry between its bold marks. *)
Definition plain_title (t : string) : Prop :=
  t <> "" /\ all_chars dot t = true /\ begins_without_space t.

Definition plain_uploader (a : string) : Prop :=
  all_chars dot a = true /\ char_free "<" a.

(** What [send] hands to the messaging API when the files on disk are
    [fs]: of the world, [send] reads the files only. *)
Definition sent_from (h : CallbackQueryHandler.t) (fs : object string)
  : completion CallbackQueryHandler.outgoing :=
  fst (CallbackQueryHandler.send h
         {| files := fs; trace := []; write_error := accepts_writes |}).

(* ================================================================== *)
(** * Part II: properties                                              *)
(* ================================================================== *)

(** ** Facts about strings *)

Section StringFacts.

Lemma sapp_assoc (a b c : string) : (a ++ b) ++ c = a ++ (b ++ c).
Proof. induction a as [|x a IH]; simpl; [reflexivity | now rewrite IH]. Qed.

Lemma sapp_nil_r (a : string) : a ++ "" = a.
Proof. induction a as [|x a IH]; simpl; [reflexivity | now rewrite IH]. Qed.

Lemma slength_app (a b : string) :
  String.length (a ++ b) = (String.length a + String.length b)%nat.
Proof. induction a as [|x a IH]; simpl; [reflexivity | now rewrite IH]. Qed.

Lemma take_app (a b : string) : take (String.length a) (a ++ b) = a.
Proof. induction a as [|x a IH]; simpl; [now destruct b | now rewrite IH]. Qed.

Lemma consumed_app (a rest : string) : consumed (a ++ rest) rest = a.
Proof.
  unfold consumed. rewrite slength_app.
  replace (String.length a + String.length rest - String.length rest)%nat
    with (String.length a) by lia.
  apply take_app.
Qed.

Lemma strip_prefix_app (p r : string) : strip_prefix p (p ++ r) = Some r.
Proof.
  induction p as [|x p IH]; simpl; [reflexivity|].
  now rewrite Ascii.eqb_refl.
Qed.

Lemma strip_prefix_Some (p s r : string) :
  strip_prefix p s = Some r -> s = p ++ r.
Proof.
  revert s; induction p as [|x p IH]; simpl; intros s H.
  - now inversion H.
  - destruct s as [|y s]; [discriminate|].
    destruct (Ascii.eqb_spec x y) as [->|]; [|discriminate].
    now rewrite (IH _ H).
Qed.

Lemma strip_prefix_None (p s : string) :
  strip_prefix p s = None -> forall r, s <> p ++ r.
Proof.
  intros H r ->. rewrite strip_prefix_app in H. discriminate.
Qed.

Lemma find_sub_Some (pat s a b : string) :
  find_sub pat s = Some (a, b) -> s = a ++ pat ++ b.
Proof.
  revert a; induction s as [|c s IH]; intros a; simpl.
  - destruct (strip_prefix pat "") eqn:E; [|discriminate].
    intros H; inversion H; subst. exact (strip_prefix_Some _ _ _ E).
  - destruct (strip_prefix pat (String c s)) eqn:E.
    + intros H; inversion H; subst. exact (strip_prefix_Some _ _ _ E).
    + destruct (find_sub pat s) as [[a' b']|]; [|discriminate].
      intros H; inversion H; subst. simpl. now rewrite (IH a' eq_refl).
Qed.

Lemma find_sub_None (pat s : string) :
  find_sub pat s = None -> forall a b, s <> a ++ pat ++ b.
Proof.
  induction s as [|c s IH]; simpl.
  - destruct (strip_prefix pat "") eqn:E; [discriminate|].
    intros _ a b H. destruct a; simpl in H.
    + now apply (strip_prefix_None _ _ E b).
    + discriminate.
  - destruct (strip_prefix pat (String c s)) eqn:E; [discriminate|].
    destruct (find_sub pat s) as [[a' b']|] eqn:F; [discriminate|].
    intros _ a b H. destruct a as [|x a]; simpl in H.
    + now apply (strip_prefix_None _ _ E b).
    + inversion H; subst. now apply (IH eq_refl a b).
Qed.

Lemma find_sub_shorter (pat s a b : string) :
  pat <> "" -> find_sub pat s = Some (a, b) ->
  (String.length b < String.length s)%nat.
Proof.
  intros Hp H. apply find_sub_Some in H. subst s.
  rewrite !slength_app. destruct pat; [congruence | simpl; lia].
Qed.

(** [length s] rounds are enough for [split]: more fuel changes nothing. *)
Lemma split_fuel_enough (sep : string) (n m : nat) (s : string) :
  sep <> "" ->
  (String.length s <= n)%nat -> (String.length s <= m)%nat ->
  split_fuel n sep s = split_fuel m sep s.
Proof.
  intros Hsep. revert m s.
  assert (E : forall k, split_fuel k sep "" = [""]).
  { intros [|k]; [reflexivity|]. cbn [split_fuel].
    destruct sep; [congruence | reflexivity]. }
  induction n as [|n IH]; intros m s Hn Hm.
  - destruct s; [|simpl in Hn; lia]. now rewrite !E.
  - destruct m as [|m].
    + destruct s; [|simpl in Hm; lia]. now rewrite !E.
    + cbn [split_fuel]. destruct (find_sub sep s) as [[a b]|] eqn:F; [|reflexivity].
      pose proof (find_sub_shorter _ _ _ _ Hsep F).
      f_equal. apply IH; lia.
Qed.

(** [includes] decides the occurrence of a substring. *)
Lemma includes_iff (s pat : string) :
  includes s pat = true <-> exists a b, s = a ++ pat ++ b.
Proof.
  unfold includes. destruct (find_sub pat s) as [[a b]|] eqn:E.
  - split; [intros _|reflexivity]. exists a, b. now apply find_sub_Some.
  - split; [discriminate|]. intros (a & b & H).
    exfalso. exact (find_sub_None _ _ E a b H).
Qed.

End StringFacts.

(** ** The quality ladder *)

(** C2: the thresholds 360, 480, 720, 1080, 1440, 2160 decide the tier; 200
    gives 240p, 480 gives 480p, everything from 2160 up (2200 for one) gives
    4K, and no height gives the declared label 144p. *)
Theorem getQualityID_thresholds (h : Z) :
  getQualityID h =
    (if h <? 360 then "240p"
     else if h <? 480 then "360p"
     else if h <? 720 then "480p"
     else if h <? 1080 then "720p"
     else if h <? 1440 then "1080p"
     else if h <? 2160 then "1440p"
     else "4K")
  /\ getQualityID 200 = "240p"
  /\ getQualityID 480 = "480p"
  /\ getQualityID 2200 = "4K"
  /\ (2160 <= h -> getQualityID h = "4K")
  /\ getQualityID h <> "144p"
  /\ In "144p" allowedFormats.
Proof.
  assert (E : getQualityID h =
    (if h <? 360 then "240p" else if h <? 480 then "360p"
     else if h <? 720 then "480p" else if h <? 1080 then "720p"
     else if h <? 1440 then "1080p" else if h <? 2160 then "1440p" else "4K")).
  { unfold getQualityID, QUALITY_LEVELS, first_level; simpl threshold; simpl label.
    repeat match goal with
           | |- context [?a <? ?b] => destruct (Z.ltb_spec a b); try lia
           end; reflexivity. }
  split; [exact E|].
  repeat split; try reflexivity.
  - intros Hh. rewrite E.
    repeat match goal with
           | |- context [?a <? ?b] => destruct (Z.ltb_spec a b); try lia
           end; reflexivity.
  - rewrite E.
    repeat match goal with
           | |- context [?a <? ?b] => destruct (Z.ltb_spec a b)
           end; discriminate.
  - simpl; auto.
Qed.

(** ** The [/format] command *)

(** C10: on the text ["/format"] the constructor of the command handler
    throws: the split has no element 1, so the extractor reads [match] on
    [undefined].  The handler is not marked invalid and no guidance is
    sent. *)
Theorem format_command_without_argument_throws :
  split "/format " "/format" = ["/format"]
  /\ FormatCommandHandler.new "/format"
     = Throw (TypeError "Cannot read properties of undefined (reading 'match')")
  /\ FormatCommandHandler.new "/format"
     <> Normal ({| FormatCommandHandler.valid := false;
                   FormatCommandHandler.url := "" |}, Some noURLReply)
  /\ FormatCommandHandler.new "/format "
     = Normal ({| FormatCommandHandler.valid := false;
                  FormatCommandHandler.url := "" |}, Some noURLReply).
Proof.
  repeat split; try reflexivity. discriminate.
Qed.

(** ** Classification of a failed metadata fetch *)

Lemma errorMessages_badURL_differs :
  forall tail1 tail2,
    errorMessages badURL ++ tail1 <> errorMessages atGettingInfo ++ tail2.
Proof. intros tail1 tail2. simpl. discriminate. Qed.

(** C8: a failed fetch is answered with the bad-URL message exactly when the
    error text contains ["not a valid URL"], and with the generic
    metadata-failure message otherwise; the URL handler and the [/format]
    handler edit the status message to the same text. *)
Theorem fetch_error_classification
    (cwd : string) (h : URLMessageHandler.t) (h' : FormatCommandHandler.t)
    (e : error) (w : world) :
  exists msg,
    URLMessageHandler.handle cwd h (Throw e) w
      = (Normal (URLMessageHandler.ErrorText msg), w)
    /\ FormatCommandHandler.handle h' (Throw e) = FormatCommandHandler.ErrorText msg
    /\ (occurs_in "not a valid URL" (error_to_string e)
        <-> msg = fullErrorMessage badURL e)
    /\ (~ occurs_in "not a valid URL" (error_to_string e)
        <-> msg = fullErrorMessage atGettingInfo e).
Proof.
  unfold URLMessageHandler.handle, FormatCommandHandler.handle, ret,
    URLMessageHandler.on_fetch_error, FormatCommandHandler.on_fetch_error.
  destruct (includes (error_to_string e) "not a valid URL") eqn:E.
  - exists (fullErrorMessage badURL e).
    apply includes_iff in E.
    repeat split; auto.
    + intros H; contradiction.
    + intros H. exfalso. unfold fullErrorMessage in H.
      exact (errorMessages_badURL_differs _ _ H).
  - exists (fullErrorMessage atGettingInfo e).
    assert (N : ~ occurs_in "not a valid URL" (error_to_string e)).
    { intros H. apply includes_iff in H. congruence. }
    repeat split; auto.
    + intros H; contradiction.
    + intros H. exfalso. unfold fullErrorMessage in H.
      symmetry in H. exact (errorMessages_badURL_differs _ _ H).
Qed.

(** ** The size formatter *)

Section FormatSize.
Import URLMessageHandler.

Lemma unit_index_bounds (bytes : Z) :
  0 < bytes ->
  -1 <= unit_index bytes
  /\ 1024 ^ (unit_index bytes + 1) <= bytes < 1024 ^ (unit_index bytes + 2).
Proof.
  intros Hb. unfold unit_index.
  pose proof (Z.log2_spec bytes Hb) as [Hlo Hhi].
  pose proof (Z.log2_nonneg bytes) as HL.
  set (L := Z.log2 bytes) in *.
  assert (Hq : 0 <= L / 10) by (apply Z.div_pos; lia).
  assert (Hm : 10 * (L / 10) <= L < 10 * (L / 10) + 10).
  { pose proof (Z.div_mod L 10 ltac:(lia)).
    pose proof (Z.mod_pos_bound L 10 ltac:(lia)). lia. }
  replace (L / 10 - 1 + 1) with (L / 10) by lia.
  replace (L / 10 - 1 + 2) with (L / 10 + 1) by lia.
  change 1024 with (2 ^ 10).
  rewrite <- !Z.pow_mul_r by lia.
  split; [lia|]. split.
  - apply Z.le_trans with (2 ^ L); [|exact Hlo].
    apply Z.pow_le_mono_r; lia.
  - apply Z.lt_le_trans with (2 ^ Z.succ L); [exact Hhi|].
    apply Z.pow_le_mono_r; lia.
Qed.

Lemma nearest_tenths_spec (num den : Z) :
  0 < den ->
  20 * num - den < 2 * nearest_tenths num den * den <= 20 * num + den.
Proof.
  intros Hd. unfold nearest_tenths.
  pose proof (Z.div_mod (20 * num + den) (2 * den) ltac:(lia)) as E.
  pose proof (Z.mod_pos_bound (20 * num + den) (2 * den) ltac:(lia)) as B.
  nia.
Qed.

Lemma sizes_at_cases (i : Z) :
  sizes_at i =
    match i with
    | 0 => "KB"
    | 1 => "MB"
    | 2 => "GB"
    | _ => "undefined"
    end.
Proof.
  unfold sizes_at.
  destruct i as [|p|p]; try reflexivity.
  destruct p as [[p|p|]|[p|p|]|]; try reflexivity;
    change (Z.pos _ <? 0) with false; cbv iota;
    match goal with
    | |- tpl (nth_error sizes ?n) = _ =>
        assert (E : nth_error sizes n = None) by (apply nth_error_None; simpl; lia);
        now rewrite E
    end.
Qed.

(** C4, as the code has it: for every positive byte count below 1024^4
    (where the floating point logarithm of the code floors to the exact
    one) the unit is the one at index [floor(log_1024(size in KB))] (a unit
    exists at the indices 0, 1 and 2), the number is the tenth nearest to
    the scaled size, and it is printed without its decimal when that is
    zero: 1,572,864 bytes give ["1.5MB"] and 1,073,741,824 bytes give
    ["1GB"]. *)
Theorem formatSize_nearest_tenth (bytes : Z) :
  0 < bytes < 1024 ^ 4 ->
  (exists i n,
      -1 <= i <= 2
      /\ 1024 ^ (i + 1) <= bytes < 1024 ^ (i + 2)
      /\ 20 * bytes - 1024 ^ (i + 1) < 2 * n * 1024 ^ (i + 1) <= 20 * bytes + 1024 ^ (i + 1)
      /\ formatSize bytes =
           (if n mod 10 =? 0 then num_to_string (n / 10)
            else num_to_string (n / 10) ++ "." ++ num_to_string (n mod 10))
           ++ match i with
              | 0 => "KB"
              | 1 => "MB"
              | 2 => "GB"
              | _ => "undefined"
              end)
  /\ formatSize 1572864 = "1.5MB"
  /\ formatSize 1073741824 = "1GB".
Proof.
  intros [Hb Hhi4]. split; [|split; reflexivity].
  exists (unit_index bytes), (nearest_tenths bytes (1024 ^ (unit_index bytes + 1))).
  destruct (unit_index_bounds bytes Hb) as (Hi & Hlo & Hhi).
  assert (Hi2 : unit_index bytes <= 2).
  { destruct (Z_le_gt_dec (unit_index bytes) 2) as [|G]; [assumption|].
    assert (1024 ^ 4 <= 1024 ^ (unit_index bytes + 1))
      by (apply Z.pow_le_mono_r; lia).
    lia. }
  repeat split; try assumption.
  - apply nearest_tenths_spec. apply Z.pow_pos_nonneg; lia.
  - apply nearest_tenths_spec. apply Z.pow_pos_nonneg; lia.
  - unfold formatSize.
    destruct (Z.leb_spec bytes 0); [lia|].
    cbv zeta. rewrite sizes_at_cases. reflexivity.
Qed.

Lemma formatSize_nearest_tenth_witness :
  0 < 1536000 < 1024 ^ 4
  /\ ((exists i n,
         -1 <= i <= 2
         /\ 1024 ^ (i + 1) <= 1536000 < 1024 ^ (i + 2)
         /\ 20 * 1536000 - 1024 ^ (i + 1) < 2 * n * 1024 ^ (i + 1)
              <= 20 * 1536000 + 1024 ^ (i + 1)
         /\ formatSize 1536000 =
              (if n mod 10 =? 0 then num_to_string (n / 10)
               else num_to_string (n / 10) ++ "." ++ num_to_string (n mod 10))
              ++ match i with
                 | 0 => "KB"
                 | 1 => "MB"
                 | 2 => "GB"
                 | _ => "undefined"
                 end)
      /\ formatSize 1572864 = "1.5MB"
      /\ formatSize 1073741824 = "1GB").
Proof.
  split; [lia | apply (formatSize_nearest_tenth 1536000); lia].
Defined.

(** C4, as the claim states it, fails at its own second example: one
    gibibyte is printed as ["1GB"], with no decimal place. *)
Lemma formatSize_one_gibibyte_has_no_decimal :
  formatSize 1073741824 = "1GB" /\ formatSize 1073741824 <> "1.0GB".
Proof. split; [reflexivity | discriminate]. Qed.

End FormatSize.

(** ** Cleanup *)

Section Cleanup.
Import CallbackQueryHandler.

Lemma unlink_calls_app (t1 t2 : list event) :
  unlink_calls (t1 ++ t2)%list = (unlink_calls t1 ++ unlink_calls t2)%list.
Proof.
  induction t1 as [|e t1 IH]; simpl; [reflexivity|].
  destruct e; simpl; now rewrite ?IH.
Qed.

(** Cleanup never raises, whatever the files on disk. *)
Lemma cleanUpFiles_never_throws (h : t) (w : world) :
  fst (cleanUpFiles h w) = Normal tt.
Proof.
  unfold cleanUpFiles, bindM, try_catch, emit, unlinkSync; simpl.
  repeat match goal with
         | |- context [obj_get ?o ?p] => destruct (obj_get o p); simpl
         end; reflexivity.
Qed.

(** C3 on the code: when the media file cannot be deleted, the single [try]
    block is left at once, so the thumbnail and the description file are
    never passed to [unlinkSync] and stay on disk.  The claim asks for three
    independent attempts. *)
Theorem cleanUpFiles_stops_at_first_failure (h : t) (w : world) :
  obj_get (files w) (storedFilePath h) = None ->
  fst (cleanUpFiles h w) = Normal tt
  /\ unlink_calls (trace (snd (cleanUpFiles h w)))
     = (unlink_calls (trace w) ++ [storedFilePath h])%list
  /\ files (snd (cleanUpFiles h w)) = files w.
Proof.
  intros Hmissing.
  unfold cleanUpFiles, bindM, try_catch, emit, unlinkSync; simpl.
  rewrite Hmissing; simpl.
  repeat split.
  rewrite !unlink_calls_app. simpl. now rewrite !app_nil_r.
Qed.

(** A session whose download failed: the description and a thumbnail are on
    disk, the media file is not. *)
Definition failed_download_session : t :=
  new "/app" 7 8 "dQw4w9WgXcQ|137+ba|212|1080|1920|55".

Definition failed_download_world : world :=
  {| files := [("/app/dQw4w9WgXcQ.jpg", "jpg");
               ("/app/dQw4w9WgXcQ-descr.txt", "<b>[3m 32s]</b> T")];
     trace := []; write_error := accepts_writes |}.

Lemma cleanUpFiles_stops_at_first_failure_witness :
  obj_get (files failed_download_world) (storedFilePath failed_download_session) = None
  /\ fst (cleanUpFiles failed_download_session failed_download_world) = Normal tt
  /\ unlink_calls (trace (snd (cleanUpFiles failed_download_session failed_download_world)))
     = (unlink_calls (trace failed_download_world)
        ++ [storedFilePath failed_download_session])%list
  /\ files (snd (cleanUpFiles failed_download_session failed_download_world))
     = files failed_download_world.
Proof.
  split; [reflexivity|].
  apply (cleanUpFiles_stops_at_first_failure failed_download_session failed_download_world).
  reflexivity.
Defined.

(** The same session, evaluated: one [unlinkSync] call, two files left. *)
Lemma cleanUpFiles_failed_download :
  unlink_calls (trace (snd (cleanUpFiles failed_download_session failed_download_world)))
    = ["/app/dQw4w9WgXcQ.mp4"]
  /\ obj_keys (files (snd (cleanUpFiles failed_download_session failed_download_world)))
    = ["/app/dQw4w9WgXcQ.jpg"; "/app/dQw4w9WgXcQ-descr.txt"].
Proof. split; reflexivity. Qed.

End Cleanup.

(** ** A format list without audio *)

Section NoAudio.
Import URLMessageHandler.

Lemma filter_all_false {A} (p : A -> bool) (l : list A) :
  forallb (fun x => negb (p x)) l = true -> filter p l = [].
Proof.
  induction l as [|x l IH]; simpl; [reflexivity|].
  destruct (p x); simpl; [discriminate | exact IH].
Qed.

Lemma find_largest_audio_none (formats : list FormatEntry) :
  has_no_audio formats = true -> find_largest_audio formats = None.
Proof.
  intros H. unfold find_largest_audio.
  now rewrite (filter_all_false _ _ H).
Qed.

(** Whether or not the description could be written, [processVideoInfo]
    returns, and returns the same. *)
Lemma processVideoInfo_result (cwd : string) (h : t) (info : VideoInfo) (w : world) :
  fst (processVideoInfo cwd h info w)
  = Normal {| video_id := info_id info;
              existingFormats := tier_ladder (info_formats info);
              largest_audio := find_largest_audio (info_formats info) |}.
Proof.
  unfold processVideoInfo, bindM, try_catch, writeFileSync, emit, ret.
  destruct (write_error w _); reflexivity.
Qed.

(** C6 on the code: with no audio-bearing entry of known filesize the
    builder reads [filesize] of [undefined] and throws; the exception
    reaches the [catch] of [handle], and the user gets the generic
    metadata-failure text instead of a menu, although the tier ladder was
    built.  The claim asks for a menu without the audio entry. *)
Theorem no_audio_breaks_menu
    (cwd : string) (h : t) (info : VideoInfo) (w : world) :
  has_no_audio (info_formats info) = true ->
  let e := TypeError "Cannot read properties of undefined (reading 'filesize')" in
  (exists r,
      fst (processVideoInfo cwd h info w) = Normal r
      /\ existingFormats r = tier_ladder (info_formats info)
      /\ largest_audio r = None
      /\ buildInlineKeyboard h info r = Throw e)
  /\ fst (handle cwd h (Normal info) w)
     = Normal (ErrorText (fullErrorMessage atGettingInfo e)).
Proof.
  intros H e.
  pose proof (find_largest_audio_none _ H) as Hla.
  pose proof (processVideoInfo_result cwd h info w) as Hr.
  split.
  - eexists. split; [exact Hr|]. simpl.
    split; [reflexivity|]. split; [exact Hla|].
    unfold buildInlineKeyboard; simpl. now rewrite Hla.
  - unfold handle.
    destruct (processVideoInfo cwd h info w) as [r w']. simpl in Hr. subst r.
    simpl. unfold buildInlineKeyboard; simpl. rewrite Hla. reflexivity.
Qed.

(** A video that offers one video-only format. *)
Definition video_only_info : VideoInfo :=
  {| info_id := "dQw4w9WgXcQ";
     info_title := "Title";
     info_uploader := "Uploader";
     info_duration := 212;
     info_formats :=
       [ {| format_id := "137"; vcodec := Some "avc1.640028";
            acodec := Some "none"; filesize := Some 52428800;
            height := Some 1080; width := Some 1920 |} ] |}.

Definition video_only_handler : t :=
  {| valid := true; url := "https://youtu.be/dQw4w9WgXcQ"; user_msg_id := 55 |}.

Lemma no_audio_breaks_menu_witness :
  has_no_audio (info_formats video_only_info) = true
  /\ (exists r,
        fst (processVideoInfo "/app" video_only_handler video_only_info
               {| files := []; trace := []; write_error := accepts_writes |})
        = Normal r
        /\ existingFormats r = tier_ladder (info_formats video_only_info)
        /\ largest_audio r = None
        /\ buildInlineKeyboard video_only_handler video_only_info r
           = Throw (TypeError "Cannot read properties of undefined (reading 'filesize')"))
  /\ fst (handle "/app" video_only_handler (Normal video_only_info)
            {| files := []; trace := []; write_error := accepts_writes |})
     = Normal (ErrorText (fullErrorMessage atGettingInfo
                (TypeError "Cannot read properties of undefined (reading 'filesize')"))).
Proof.
  split; [reflexivity|].
  apply (no_audio_breaks_menu "/app" video_only_handler video_only_info
           {| files := []; trace := []; write_error := accepts_writes |}).
  reflexivity.
Defined.

End NoAudio.

(** ** The tier ladder *)

Section SortMembership.
Context {A : Type}.

Lemma In_insert_sorted (c : A -> A -> Z) (x y : A) (l : list A) :
  In y (insert_sorted c x l) <-> y = x \/ In y l.
Proof.
  induction l as [|z l IH]; simpl.
  - intuition.
  - destruct (c x z <=? 0); simpl; rewrite ?IH; intuition.
Qed.

Lemma In_sort (c : A -> A -> Z) (y : A) (l : list A) :
  In y (sort c l) <-> In y l.
Proof.
  induction l as [|z l IH]; simpl; [tauto|].
  rewrite In_insert_sorted, IH. intuition.
Qed.
End SortMembership.

Section SortFacts.
Context {A : Type}.
Variable key : A -> Z.
Let cmp (a b : A) : Z := key a - key b.
Let le_key (a b : A) : Prop := key a <= key b.

Lemma insert_sorted_sorted (x : A) (l : list A) :
  StronglySorted le_key l -> StronglySorted le_key (insert_sorted cmp x l).
Proof.
  induction l as [|z l IH]; simpl; intros Hs.
  - constructor; [constructor | constructor].
  - inversion Hs as [|? ? Hl Hz]; subst.
    unfold cmp at 1. destruct (Z.leb_spec (key x - key z) 0) as [Hle|Hgt].
    + constructor; [exact Hs|].
      constructor; [unfold le_key; lia|].
      eapply Forall_impl; [|exact Hz].
      unfold le_key; intros; lia.
    + constructor; [now apply IH|].
      apply Forall_forall. intros y Hy.
      apply In_insert_sorted in Hy. destruct Hy as [->|Hy].
      * unfold le_key; lia.
      * rewrite Forall_forall in Hz. now apply Hz.
Qed.

Lemma sort_sorted (l : list A) : StronglySorted le_key (sort cmp l).
Proof.
  induction l as [|z l IH]; simpl; [constructor|].
  now apply insert_sorted_sorted.
Qed.

(** In an ascending list, the last element with a property is a largest
    element with that property. *)
Lemma last_of_sorted_is_max (p : A -> bool) (l : list A) (f : A) :
  StronglySorted le_key l ->
  find p (rev l) = Some f ->
  In f l /\ p f = true
  /\ forall g, In g l -> p g = true -> key g <= key f.
Proof.
  induction l as [|x l IH] using rev_ind; [discriminate|].
  rewrite rev_app_distr; simpl. intros Hs Hf.
  assert (Hs' : StronglySorted le_key l).
  { clear -Hs. induction l as [|y l IH]; [constructor|].
    simpl in Hs. inversion Hs as [|? ? Hl Hy]; subst.
    constructor; [now apply IH|].
    rewrite Forall_forall in *. intros z Hz. apply Hy.
    apply in_or_app; now left. }
  assert (Hx : forall g, In g l -> key g <= key x).
  { clear -Hs. induction l as [|y l IH]; [intros g []|].
    simpl in Hs. inversion Hs as [|? ? Hl Hy]; subst.
    intros g [->|Hg].
    - rewrite Forall_forall in Hy. apply Hy. apply in_or_app; right; now left.
    - now apply IH. }
  destruct (p x) eqn:Px.
  - inversion Hf; subst f.
    split; [apply in_or_app; right; now left|]. split; [exact Px|].
    intros g Hg _. apply in_app_or in Hg. destruct Hg as [Hg|[->|[]]].
    + now apply Hx.
    + lia.
  - destruct (IH Hs' Hf) as (Hin & Pf & Hmax).
    split; [apply in_or_app; now left|]. split; [exact Pf|].
    intros g Hg Pg. apply in_app_or in Hg. destruct Hg as [Hg|[->|[]]].
    + now apply Hmax.
    + congruence.
Qed.
End SortFacts.

Section ObjectFacts.
Context {V : Type}.

Lemma obj_get_set (o : object V) (k k' : string) (v : V) :
  obj_get (obj_set o k v) k' = if String.eqb k k' then Some v else obj_get o k'.
Proof.
  induction o as [|[k0 v0] o IH]; simpl.
  - destruct (String.eqb_spec k k'); reflexivity.
  - destruct (String.eqb_spec k0 k) as [->|Hne]; simpl.
    + destruct (String.eqb_spec k k'); reflexivity.
    + rewrite IH. destruct (String.eqb_spec k0 k') as [->|]; [|reflexivity].
      destruct (String.eqb_spec k k'); [congruence | reflexivity].
Qed.

Lemma obj_keys_set (o : object V) (k k' : string) (v : V) :
  In k' (obj_keys (obj_set o k v)) <-> k' = k \/ In k' (obj_keys o).
Proof.
  unfold obj_keys. induction o as [|[k0 v0] o IH]; simpl.
  - intuition.
  - destruct (String.eqb_spec k0 k) as [->|Hne]; simpl.
    + intuition.
    + rewrite IH. intuition.
Qed.

Lemma obj_keys_set_NoDup (o : object V) (k : string) (v : V) :
  NoDup (obj_keys o) -> NoDup (obj_keys (obj_set o k v)).
Proof.
  induction o as [|[k0 v0] o IH]; simpl; intros Hn.
  - constructor; [intros [] | constructor].
  - inversion Hn as [|? ? Hnot Hn']; subst.
    destruct (String.eqb_spec k0 k) as [->|Hne]; simpl.
    + now constructor.
    + constructor; [|now apply IH].
      intros Hin. apply (obj_keys_set o k k0 v) in Hin.
      destruct Hin as [->|Hin]; [congruence | contradiction].
Qed.

Lemma obj_get_keys (o : object V) (k : string) :
  In k (obj_keys o) <-> exists v, obj_get o k = Some v.
Proof.
  induction o as [|[k0 v0] o IH]; simpl.
  - split; [intros [] | intros [v Hv]; discriminate].
  - destruct (String.eqb_spec k0 k) as [->|Hne].
    + split; [intros _; now exists v0 | now left].
    + rewrite <- IH. intuition.
Qed.
End ObjectFacts.

Section Ladder.
Import URLMessageHandler.

Lemma record_format_eq (acc : object tier_entry) (f : FormatEntry) :
  record_format acc f = obj_set acc (tier_of f) (entry_of f).
Proof. reflexivity. Qed.

(** The slot of a tier holds the last entry of that tier in iteration
    order. *)
Lemma ladder_fold_get (l : list FormatEntry) (acc : object tier_entry) (k : string) :
  obj_get (fold_left record_format l acc) k =
    match find (fun f => String.eqb (tier_of f) k) (rev l) with
    | Some f => Some (entry_of f)
    | None => obj_get acc k
    end.
Proof.
  induction l as [|x l IH] using rev_ind; [reflexivity|].
  rewrite fold_left_app, rev_app_distr; simpl.
  rewrite record_format_eq, obj_get_set, IH.
  destruct (String.eqb (tier_of x) k); reflexivity.
Qed.

Lemma ladder_fold_NoDup (l : list FormatEntry) (acc : object tier_entry) :
  NoDup (obj_keys acc) -> NoDup (obj_keys (fold_left record_format l acc)).
Proof.
  revert acc; induction l as [|x l IH]; simpl; intros acc Hn; [exact Hn|].
  apply IH. rewrite record_format_eq. now apply obj_keys_set_NoDup.
Qed.

Lemma In_videoformats (formats : list FormatEntry) (f : FormatEntry) :
  In f (videoformats formats) <-> In f formats /\ is_video_candidate f = true.
Proof.
  unfold videoformats. rewrite In_sort. apply filter_In.
Qed.

(** Two formats of the 720p tier, the smaller one first. *)
Definition two_720p_formats : list FormatEntry :=
  [ {| format_id := "136"; vcodec := Some "avc1.4d401f"; acodec := Some "none";
       filesize := Some 100; height := Some 720; width := Some 1280 |};
    {| format_id := "247"; vcodec := Some "vp9"; acodec := Some "none";
       filesize := Some 200; height := Some 720; width := Some 1280 |} ].

(** C1 on the code: the ladder has one slot per tier present, and the slot
    of a tier holds a candidate of that tier of the LARGEST filesize: the
    candidates are visited in ascending order of size and each overwrites
    the slot.  The claim, and the comment in the source, ask for the
    smallest; of two 720p formats of 100 and 200 bytes the ladder keeps the
    one of 200. *)
Theorem tier_ladder_keeps_largest (formats : list FormatEntry) :
  NoDup (obj_keys (tier_ladder formats))
  /\ (forall k,
        In k (obj_keys (tier_ladder formats))
        <-> exists f, In f formats /\ is_video_candidate f = true /\ tier_of f = k)
  /\ (forall k e,
        obj_get (tier_ladder formats) k = Some e ->
        exists f,
          In f formats /\ is_video_candidate f = true /\ tier_of f = k
          /\ e = entry_of f
          /\ forall g, In g formats -> is_video_candidate g = true ->
                       tier_of g = k -> size_of g <= size_of f)
  /\ tier_ladder two_720p_formats = [("720p", ("247", 200, 720, Some 1280))].
Proof.
  assert (Hget : forall k e,
    obj_get (tier_ladder formats) k = Some e ->
    exists f,
      In f formats /\ is_video_candidate f = true /\ tier_of f = k
      /\ e = entry_of f
      /\ forall g, In g formats -> is_video_candidate g = true ->
                   tier_of g = k -> size_of g <= size_of f).
  { intros k e H. unfold tier_ladder in H. rewrite ladder_fold_get in H.
    destruct (find (fun f => String.eqb (tier_of f) k) (rev (videoformats formats)))
      as [f|] eqn:F; [|discriminate].
    inversion H; subst e; clear H.
    destruct (last_of_sorted_is_max size_of _ _ _ (sort_sorted size_of _) F)
      as (Hin & Hp & Hmax).
    apply In_videoformats in Hin. destruct Hin as [Hin Hc].
    apply String.eqb_eq in Hp.
    exists f. repeat split; try assumption.
    intros g Hg Hgc Hgk. apply Hmax.
    - apply In_videoformats. now split.
    - now apply String.eqb_eq. }
  split; [|split; [|split; [exact Hget | reflexivity]]].
  - apply ladder_fold_NoDup. constructor.
  - intros k. rewrite obj_get_keys. split.
    + intros [e He]. destruct (Hget k e He) as (f & H1 & H2 & H3 & _).
      now exists f.
    + intros (f & Hin & Hc & Hk).
      unfold tier_ladder. rewrite ladder_fold_get.
      destruct (find (fun f => String.eqb (tier_of f) k) (rev (videoformats formats)))
        as [g|] eqn:F; [now exists (entry_of g)|].
      exfalso.
      assert (Hf : In f (rev (videoformats formats))).
      { rewrite <- in_rev. apply In_videoformats. now split. }
      pose proof (find_none _ _ F f Hf) as Hn. simpl in Hn.
      apply String.eqb_neq in Hn. contradiction.
Qed.

End Ladder.

(** ** Decimal text of integers *)

Section Decimal.

Ltac ascii_cases c := destruct c as [[|] [|] [|] [|] [|] [|] [|] [|]].

Lemma digit_not_special (c : ascii) :
  is_digit c = true ->
  is_space c = false
  /\ Ascii.eqb c "-" = false /\ Ascii.eqb c "+" = false
  /\ Ascii.eqb c "x" = false /\ Ascii.eqb c "X" = false
  /\ Ascii.eqb c "|" = false.
Proof. ascii_cases c; vm_compute; intros H; try discriminate H; repeat split. Qed.

Lemma all_chars_app (p : ascii -> bool) (a b : string) :
  all_chars p (a ++ b) = (all_chars p a && all_chars p b)%bool.
Proof.
  induction a as [|c a IH]; simpl; [reflexivity|].
  now rewrite IH, andb_assoc.
Qed.

Lemma all_chars_impl (p q : ascii -> bool) (s : string) :
  (forall c, p c = true -> q c = true) ->
  all_chars p s = true -> all_chars q s = true.
Proof.
  intros Hpq. induction s as [|c s IH]; simpl; [reflexivity|].
  intros H. apply andb_true_iff in H. destruct H as [Hc Hs].
  now rewrite (Hpq _ Hc), (IH Hs).
Qed.

Lemma string_of_uint_digits (d : Decimal.uint) :
  all_chars is_digit (NilEmpty.string_of_uint d) = true.
Proof. induction d; simpl; auto. Qed.

Lemma read_digits_uint (d : Decimal.uint) (a : Z) :
  read_digits (Some a) (NilEmpty.string_of_uint d) = Some (uint_value a d).
Proof. revert a; induction d; intros a; simpl; auto; apply IHd. Qed.

Lemma read_digits_uint_start (d : Decimal.uint) :
  d <> Decimal.Nil ->
  read_digits None (NilEmpty.string_of_uint d) = Some (uint_value 0 d).
Proof.
  destruct d; intros H; [congruence| ..]; simpl; apply read_digits_uint.
Qed.

Lemma of_uint_acc_value (d : Decimal.uint) (p : positive) :
  Z.pos (Pos.of_uint_acc d p) = uint_value (Z.pos p) d.
Proof.
  revert p; induction d; intros p; cbn [Pos.of_uint_acc uint_value];
    [reflexivity| ..]; rewrite IHd; f_equal; lia.
Qed.

Lemma of_uint_value (d : Decimal.uint) :
  Z.of_N (Pos.of_uint d) = uint_value 0 d.
Proof.
  induction d; cbn [Pos.of_uint uint_value];
    [reflexivity | exact IHd | ..]; exact (of_uint_acc_value d _).
Qed.

Lemma to_uint_value (p : positive) : uint_value 0 (Pos.to_uint p) = Z.pos p.
Proof.
  rewrite <- of_uint_value, DecimalPos.Unsigned.of_to. reflexivity.
Qed.

(** On a non-empty row of digits [parseInt] reads all of it, in base 10. *)
Lemma parseInt_digits (s : string) :
  s <> "" -> all_chars is_digit s = true ->
  parseInt s = read_digits None s
  /\ parseInt (String "-" s) = option_map Z.opp (read_digits None s).
Proof.
  destruct s as [|c s]; [congruence|]. intros _ H.
  simpl in H. apply andb_true_iff in H. destruct H as [Hc Hs].
  destruct (digit_not_special c Hc) as (Sp & Mi & Pl & _).
  assert (R : read_unsigned (String c s) = read_digits None (String c s)).
  { unfold read_unsigned. destruct s as [|c1 s]; [reflexivity|].
    simpl in Hs. apply andb_true_iff in Hs. destruct Hs as [Hc1 _].
    destruct (digit_not_special c1 Hc1) as (_ & _ & _ & Hx & HX & _).
    now rewrite Hx, HX, andb_false_r. }
  split.
  - unfold parseInt. simpl skip_spaces. rewrite Sp, Mi, Pl. exact R.
  - unfold parseInt. simpl skip_spaces.
    change (is_space "-") with false. cbv iota.
    change (Ascii.eqb "-" "-") with true. cbv iota.
    now rewrite R.
Qed.

Lemma to_uint_string_nonempty (p : positive) :
  NilEmpty.string_of_uint (Pos.to_uint p) <> "".
Proof.
  pose proof (DecimalPos.Unsigned.to_uint_nonnil p) as H.
  destruct (Pos.to_uint p); [congruence| ..]; discriminate.
Qed.

Lemma num_to_string_pos (p : positive) :
  num_to_string (Z.pos p) = NilEmpty.string_of_uint (Pos.to_uint p).
Proof.
  unfold num_to_string. simpl.
  pose proof (DecimalPos.Unsigned.to_uint_nonnil p) as H.
  unfold NilZero.string_of_uint. destruct (Pos.to_uint p); [congruence| ..]; reflexivity.
Qed.

Lemma num_to_string_neg (p : positive) :
  num_to_string (Z.neg p) = String "-" (NilEmpty.string_of_uint (Pos.to_uint p)).
Proof.
  unfold num_to_string. simpl.
  pose proof (DecimalPos.Unsigned.to_uint_nonnil p) as H.
  unfold NilZero.string_of_uint. destruct (Pos.to_uint p); [congruence| ..]; reflexivity.
Qed.

(** [parseInt(String(n))] is [n]. *)
Lemma parseInt_num_to_string (n : Z) : parseInt (num_to_string n) = Some n.
Proof.
  destruct n as [|p|p].
  - reflexivity.
  - rewrite num_to_string_pos.
    destruct (parseInt_digits _ (to_uint_string_nonempty p) (string_of_uint_digits _))
      as [-> _].
    rewrite read_digits_uint_start by apply DecimalPos.Unsigned.to_uint_nonnil.
    now rewrite to_uint_value.
  - rewrite num_to_string_neg.
    destruct (parseInt_digits _ (to_uint_string_nonempty p) (string_of_uint_digits _))
      as [_ ->].
    rewrite read_digits_uint_start by apply DecimalPos.Unsigned.to_uint_nonnil.
    now rewrite to_uint_value.
Qed.

Lemma num_to_string_nonempty (n : Z) : num_to_string n <> "".
Proof.
  intros H. pose proof (parseInt_num_to_string n) as P.
  rewrite H in P. discriminate.
Qed.

(** The decimal text of an integer has no ["|"] in it. *)
Lemma num_to_string_bar_free (n : Z) : bar_free (num_to_string n).
Proof.
  unfold bar_free, char_free.
  assert (D : forall s, all_chars is_digit s = true -> all_chars (is_not "|") s = true).
  { intros s. apply all_chars_impl. intros c Hc.
    destruct (digit_not_special c Hc) as (_ & _ & _ & _ & _ & Hb).
    unfold is_not. now rewrite Hb. }
  destruct n as [|p|p].
  - reflexivity.
  - rewrite num_to_string_pos. apply D, string_of_uint_digits.
  - rewrite num_to_string_neg. simpl. apply D, string_of_uint_digits.
Qed.

End Decimal.

(** ** The callback payload *)

Section Payload.
Import CallbackQueryHandler.

Lemma find_sub_cons (pat : string) (c : ascii) (s : string) :
  find_sub pat (String c s) =
    match strip_prefix pat (String c s) with
    | Some rest => Some ("", rest)
    | None =>
        match find_sub pat s with
        | Some (before, after) => Some (String c before, after)
        | None => None
        end
    end.
Proof. reflexivity. Qed.

Lemma strip_prefix_char (x c : ascii) (s : string) :
  strip_prefix (String x "") (String c s) = if Ascii.eqb x c then Some s else None.
Proof. reflexivity. Qed.

Lemma char_free_cons (x c : ascii) (s : string) :
  char_free x (String c s) -> Ascii.eqb x c = false /\ char_free x s.
Proof.
  unfold char_free; cbn [all_chars]. intros H.
  apply andb_true_iff in H. destruct H as [Hc Hs]. split; [|exact Hs].
  unfold is_not in Hc. rewrite Ascii.eqb_sym in Hc.
  now destruct (Ascii.eqb x c).
Qed.

Lemma find_sub_char_None (x : ascii) (s : string) :
  char_free x s -> find_sub (String x "") s = None.
Proof.
  induction s as [|c s IH]; [reflexivity|].
  intros H. apply char_free_cons in H. destruct H as [Hc Hs].
  now rewrite find_sub_cons, strip_prefix_char, Hc, (IH Hs).
Qed.

Lemma find_sub_char_first (x : ascii) (a b : string) :
  char_free x a -> find_sub (String x "") (a ++ String x "" ++ b) = Some (a, b).
Proof.
  induction a as [|c a IH].
  - intros _. simpl. now rewrite Ascii.eqb_refl.
  - intros H. apply char_free_cons in H. destruct H as [Hc Ha].
    change (String c a ++ String x "" ++ b) with (String c (a ++ String x "" ++ b)).
    now rewrite find_sub_cons, strip_prefix_char, Hc, (IH Ha).
Qed.

Lemma find_sub_bar_None (s : string) : bar_free s -> find_sub "|" s = None.
Proof. apply find_sub_char_None. Qed.

Lemma find_sub_bar_first (a b : string) :
  bar_free a -> find_sub "|" (a ++ "|" ++ b) = Some (a, b).
Proof. apply (find_sub_char_first "|"). Qed.

Lemma bar_free_iff (s : string) : bar_free s <-> ~ occurs_in "|" s.
Proof.
  split.
  - intros H (a & b & E). apply find_sub_bar_None in H.
    exact (find_sub_None _ _ H a b E).
  - unfold bar_free, char_free. induction s as [|c s IH]; simpl; [reflexivity|]. intros H.
    apply andb_true_iff. split.
    + unfold is_not. destruct (Ascii.eqb_spec c "|") as [->|]; [|reflexivity].
      exfalso. apply H. now exists "", s.
    + apply IH. intros (a & b & E). apply H.
      exists (String c a), b. now rewrite E.
Qed.

Lemma slength_concat_bar (x : string) (l : list string) :
  (List.length l <= String.length (concat "|" (x :: l)))%nat.
Proof.
  revert x; induction l as [|y l IH]; intros x; [simpl; lia|].
  change (concat "|" (x :: y :: l)) with (x ++ "|" ++ concat "|" (y :: l)).
  rewrite slength_app. specialize (IH y). simpl in *. lia.
Qed.

Lemma split_fuel_concat (l : list string) (x : string) (n : nat) :
  Forall (fun s => bar_free s) (x :: l) ->
  (List.length l <= n)%nat ->
  split_fuel n "|" (concat "|" (x :: l)) = x :: l.
Proof.
  revert x n; induction l as [|y l IH]; intros x n Hf Hn.
  - inversion Hf as [|? ? Hx _]; subst.
    destruct n; [reflexivity|].
    simpl split_fuel. change (concat "|" [x]) with x.
    now rewrite (find_sub_bar_None _ Hx).
  - inversion Hf as [|? ? Hx Hf']; subst.
    destruct n as [|n]; [simpl in Hn; lia|].
    change (concat "|" (x :: y :: l)) with (x ++ "|" ++ concat "|" (y :: l)).
    cbn [split_fuel]. rewrite (find_sub_bar_first _ _ Hx).
    rewrite IH; [reflexivity | exact Hf' | simpl in Hn; lia].
Qed.

(** Splitting a payload gives back the six fields that were joined. *)
Lemma split_callback_data (vid fmt dur h w msg : string) :
  bar_free vid -> bar_free fmt -> bar_free dur ->
  bar_free h -> bar_free w -> bar_free msg ->
  split "|" (URLMessageHandler.callback_data vid fmt dur h w msg)
  = [vid; fmt; dur; h; w; msg].
Proof.
  intros H1 H2 H3 H4 H5 H6. unfold split.
  change (URLMessageHandler.callback_data vid fmt dur h w msg)
    with (concat "|" [vid; fmt; dur; h; w; msg]).
  apply split_fuel_concat.
  - repeat constructor; assumption.
  - apply slength_concat_bar.
Qed.

Lemma new_fields (cwd : string) (m c : Z) (vid fmt dur h w msg : string) :
  bar_free vid -> bar_free fmt -> bar_free dur ->
  bar_free h -> bar_free w -> bar_free msg ->
  let q := new cwd m c (URLMessageHandler.callback_data vid fmt dur h w msg) in
  video_id q = Some vid /\ format q = Some fmt /\ duration q = Some dur
  /\ height q = Some h /\ width q = Some w
  /\ original_user_msg_id q = parseInt msg
  /\ isAudio q = (negb (truthy_str (Some h)) && negb (truthy_str (Some w)))%bool.
Proof.
  intros H1 H2 H3 H4 H5 H6 q. subst q. unfold new.
  rewrite (split_callback_data _ _ _ _ _ _ H1 H2 H3 H4 H5 H6).
  repeat split.
Qed.

Lemma truthy_num_to_string (n : Z) : truthy_str (Some (num_to_string n)) = true.
Proof.
  pose proof (num_to_string_nonempty n) as H.
  simpl. destruct (num_to_string n); [congruence | reflexivity].
Qed.

Lemma parseInt_num_opt_to_string (w : option Z) :
  parseInt (num_opt_to_string w) = w.
Proof.
  destruct w as [n|]; [apply parseInt_num_to_string | reflexivity].
Qed.

Lemma num_opt_to_string_bar_free (w : option Z) : bar_free (num_opt_to_string w).
Proof.
  destruct w as [n|]; [apply num_to_string_bar_free | reflexivity].
Qed.

(** C5: a payload built by the menu, for an audio or a video button, is
    decoded by the callback handler into the same fields: the video id, the
    format spec, the duration, the height and the width (both empty for
    audio), and the id of the originating message, provided the video id
    and the format id contain no ["|"]. *)
Theorem selection_action_roundtrip
    (cwd : string) (msg_id chat : Z) (hd : URLMessageHandler.t) (info : VideoInfo)
    (vid res id : string) (size hh : Z) (w : option Z) (audio_size : Z) :
  ~ occurs_in "|" (info_id info) ->
  ~ occurs_in "|" vid ->
  ~ occurs_in "|" id ->
  let video :=
    new cwd msg_id chat
      (snd (URLMessageHandler.tier_button hd info vid audio_size (res, (id, size, hh, w)))) in
  let audio :=
    new cwd msg_id chat (snd (URLMessageHandler.music_button hd info audio_size)) in
  (video_id video = Some vid
   /\ format video = Some (id ++ "+ba")
   /\ duration video = Some (num_to_string (info_duration info))
   /\ parseInt_opt (duration video) = Some (info_duration info)
   /\ height video = Some (num_to_string hh)
   /\ parseInt_opt (height video) = Some hh
   /\ width video = Some (num_opt_to_string w)
   /\ parseInt_opt (width video) = w
   /\ original_user_msg_id video = Some (URLMessageHandler.user_msg_id hd)
   /\ isAudio video = false)
  /\ (video_id audio = Some (info_id info)
      /\ format audio = Some "ba"
      /\ duration audio = Some (num_to_string (info_duration info))
      /\ parseInt_opt (duration audio) = Some (info_duration info)
      /\ height audio = Some ""
      /\ width audio = Some ""
      /\ original_user_msg_id audio = Some (URLMessageHandler.user_msg_id hd)
      /\ isAudio audio = true).
Proof.
  intros Hinfo Hvid Hid video audio.
  apply bar_free_iff in Hinfo, Hvid, Hid.
  assert (Hfmt : bar_free (id ++ "+ba")).
  { unfold bar_free, char_free in *. rewrite all_chars_app, Hid. reflexivity. }
  split.
  - subst video. cbn [URLMessageHandler.tier_button snd].
    destruct (new_fields cwd msg_id chat vid (id ++ "+ba")
                (num_to_string (info_duration info)) (num_to_string hh)
                (num_opt_to_string w) (num_to_string (URLMessageHandler.user_msg_id hd))
                Hvid Hfmt (num_to_string_bar_free _) (num_to_string_bar_free _)
                (num_opt_to_string_bar_free _) (num_to_string_bar_free _))
      as (E1 & E2 & E3 & E4 & E5 & E6 & E7).
    rewrite E1, E2, E3, E4, E5, E6, E7.
    unfold parseInt_opt, tpl.
    rewrite !parseInt_num_to_string, parseInt_num_opt_to_string, truthy_num_to_string.
    repeat split.
  - subst audio. cbn [URLMessageHandler.music_button snd].
    destruct (new_fields cwd msg_id chat (info_id info) "ba"
                (num_to_string (info_duration info)) "" ""
                (num_to_string (URLMessageHandler.user_msg_id hd))
                Hinfo eq_refl (num_to_string_bar_free _) eq_refl eq_refl
                (num_to_string_bar_free _))
      as (E1 & E2 & E3 & E4 & E5 & E6 & E7).
    rewrite E1, E2, E3, E4, E5, E6, E7.
    unfold parseInt_opt, tpl.
    rewrite !parseInt_num_to_string.
    repeat split.
Qed.

Lemma not_occurs_in_dec (pat s : string) :
  includes s pat = false -> ~ occurs_in pat s.
Proof.
  intros H O. apply includes_iff in O. congruence.
Qed.

Lemma selection_action_roundtrip_witness :
  let hd := fst (URLMessageHandler.new 55 "see https://youtu.be/dQw4w9WgXcQ") in
  let info :=
    {| info_id := "dQw4w9WgXcQ"; info_title := "Title"; info_uploader := "Uploader";
       info_duration := 212; info_formats := [] |} in
  let video :=
    new "/app" 7 8
      (snd (URLMessageHandler.tier_button hd info "dQw4w9WgXcQ" 3000000
              ("1080p", ("137", 52428800, 1080, Some 1920)))) in
  let audio := new "/app" 7 8 (snd (URLMessageHandler.music_button hd info 3000000)) in
  (~ occurs_in "|" (info_id info)
   /\ ~ occurs_in "|" "dQw4w9WgXcQ"
   /\ ~ occurs_in "|" "137")
  /\ (video_id video = Some "dQw4w9WgXcQ"
      /\ format video = Some ("137" ++ "+ba")
      /\ duration video = Some (num_to_string (info_duration info))
      /\ parseInt_opt (duration video) = Some (info_duration info)
      /\ height video = Some (num_to_string 1080)
      /\ parseInt_opt (height video) = Some 1080
      /\ width video = Some (num_opt_to_string (Some 1920))
      /\ parseInt_opt (width video) = Some 1920
      /\ original_user_msg_id video = Some (URLMessageHandler.user_msg_id hd)
      /\ isAudio video = false)
  /\ (video_id audio = Some (info_id info)
      /\ format audio = Some "ba"
      /\ duration audio = Some (num_to_string (info_duration info))
      /\ parseInt_opt (duration audio) = Some (info_duration info)
      /\ height audio = Some ""
      /\ width audio = Some ""
      /\ original_user_msg_id audio = Some (URLMessageHandler.user_msg_id hd)
      /\ isAudio audio = true).
Proof.
  intros hd info video audio.
  assert (H1 : ~ occurs_in "|" (info_id info)) by (apply not_occurs_in_dec; reflexivity).
  assert (H2 : ~ occurs_in "|" "dQw4w9WgXcQ") by (apply not_occurs_in_dec; reflexivity).
  assert (H3 : ~ occurs_in "|" "137") by (apply not_occurs_in_dec; reflexivity).
  split; [repeat split; assumption|].
  exact (selection_action_roundtrip "/app" 7 8 hd info "dQw4w9WgXcQ" "1080p" "137"
           52428800 1080 (Some 1920) 3000000 H1 H2 H3).
Defined.

End Payload.

(** ** The matcher *)

Section MatcherFacts.

Lemma star_greedy_sound (k : string -> option mstate) (p : ascii -> bool)
    (s : string) (m : mstate) :
  star_greedy k p s = Some m ->
  exists w rest, s = w ++ rest /\ all_chars p w = true /\ k rest = Some m.
Proof.
  induction s as [|c s IH]; simpl.
  - intros H. now exists "", "".
  - destruct (p c) eqn:Pc.
    + destruct (star_greedy k p s) as [m'|] eqn:E.
      * intros H; inversion H; subst m'.
        destruct (IH eq_refl) as (w & rest & -> & Hw & Hk).
        exists (String c w), rest. simpl. now rewrite Pc, Hw.
      * intros H. now exists "", (String c s).
    + intros H. now exists "", (String c s).
Qed.

Lemma star_lazy_sound (k : string -> option mstate) (p : ascii -> bool)
    (s : string) (m : mstate) :
  star_lazy k p s = Some m ->
  exists w rest, s = w ++ rest /\ all_chars p w = true /\ k rest = Some m.
Proof.
  induction s as [|c s IH]; simpl.
  - destruct (k "") eqn:E; [|discriminate].
    intros H; inversion H; subst. now exists "", "".
  - destruct (k (String c s)) eqn:E.
    + intros H; inversion H; subst. now exists "", (String c s).
    + destruct (p c) eqn:Pc; [|discriminate].
      intros H. destruct (IH H) as (w & rest & -> & Hw & Hk).
      exists (String c w), rest. simpl. now rewrite Pc, Hw.
Qed.

Lemma rep_sound (k : string -> option mstate) (n : nat) (p : ascii -> bool)
    (s : string) (m : mstate) :
  rep k n p s = Some m ->
  exists w rest,
    s = w ++ rest /\ String.length w = n /\ all_chars p w = true /\ k rest = Some m.
Proof.
  revert s; induction n as [|n IH]; simpl; intros s H.
  - now exists "", s.
  - destruct s as [|c s]; [discriminate|].
    destruct (p c) eqn:Pc; [|discriminate].
    destruct (IH _ H) as (w & rest & -> & Hl & Hw & Hk).
    exists (String c w), rest. simpl. now rewrite Pc, Hw, Hl.
Qed.

(** Whatever the matcher accepts is a word of the pattern followed by the
    input the continuation received. *)
Lemma run_sound (r : regex) :
  forall s caps k m,
    run r s caps k = Some m ->
    exists w rest caps',
      s = w ++ rest /\ Matches r w /\ k rest caps' = Some m.
Proof.
  induction r as [l | r1 IH1 r2 IH2 | r1 IH1 r2 IH2 | r1 IH1 | p | p | n p | r1 IH1];
    intros s caps k m; simpl.
  - destruct (strip_prefix l s) as [rest|] eqn:E; [|discriminate].
    intros H. exists l, rest, caps. split; [|now split].
    now apply strip_prefix_Some.
  - intros H. destruct (IH1 _ _ _ _ H) as (w1 & rest1 & caps1 & -> & M1 & H1).
    destruct (IH2 _ _ _ _ H1) as (w2 & rest & caps2 & -> & M2 & H2).
    exists (w1 ++ w2), rest, caps2. split; [now rewrite sapp_assoc|].
    split; [now exists w1, w2 | exact H2].
  - destruct (run r1 s caps k) as [m'|] eqn:E.
    + intros H; inversion H; subst m'.
      destruct (IH1 _ _ _ _ E) as (w & rest & caps' & -> & M & Hk).
      exists w, rest, caps'. tauto.
    + intros H. destruct (IH2 _ _ _ _ H) as (w & rest & caps' & -> & M & Hk).
      exists w, rest, caps'. tauto.
  - destruct (run r1 s caps k) as [m'|] eqn:E.
    + intros H; inversion H; subst m'.
      destruct (IH1 _ _ _ _ E) as (w & rest & caps' & -> & M & Hk).
      exists w, rest, caps'. tauto.
    + intros H. exists "", s, caps. tauto.
  - intros H. destruct (star_greedy_sound _ _ _ _ H) as (w & rest & -> & Hw & Hk).
    now exists w, rest, caps.
  - intros H. destruct (star_lazy_sound _ _ _ _ H) as (w & rest & -> & Hw & Hk).
    now exists w, rest, caps.
  - intros H. destruct (rep_sound _ _ _ _ _ H) as (w & rest & -> & Hl & Hw & Hk).
    now exists w, rest, caps.
  - intros H. destruct (IH1 _ _ _ _ H) as (w & rest & caps' & -> & M & Hk).
    now exists w, rest, (caps' ++ [consumed (w ++ rest) rest])%list.
Qed.

Lemma match_at_sound (r : regex) (s whole : string) (caps : list string) :
  match_at r s = Some (whole, caps) ->
  exists rest, s = whole ++ rest /\ Matches r whole.
Proof.
  unfold match_at. destruct (run r s [] accept) as [[rest caps']|] eqn:E; [|discriminate].
  intros H; inversion H; subst; clear H.
  destruct (run_sound _ _ _ _ _ E) as (w & rest' & caps'' & -> & M & Hk).
  unfold accept in Hk. inversion Hk; subst.
  exists rest. now rewrite consumed_app.
Qed.

(** A greedy star in front of a continuation that accepts at the end of
    the run of [p] takes the whole run. *)
Lemma star_greedy_max (k : string -> option mstate) (p : ascii -> bool)
    (w post : string) (m : mstate) :
  all_chars p w = true ->
  (post = "" \/ exists c rest, post = String c rest /\ p c = false) ->
  k post = Some m ->
  star_greedy k p (w ++ post) = Some m.
Proof.
  intros Hw Hpost Hk. induction w as [|c w IH]; simpl.
  - destruct Hpost as [->|(c & rest & -> & Pc)]; simpl; [exact Hk|].
    now rewrite Pc.
  - simpl in Hw. apply andb_true_iff in Hw. destruct Hw as [Pc Hw].
    now rewrite Pc, (IH Hw).
Qed.

Lemma rep_app (k : string -> option mstate) (p : ascii -> bool)
    (w rest : string) :
  all_chars p w = true ->
  rep k (String.length w) p (w ++ rest) = k rest.
Proof.
  induction w as [|c w IH]; simpl; [reflexivity|].
  intros H. apply andb_true_iff in H. destruct H as [Pc Hw].
  now rewrite Pc, (IH Hw).
Qed.

(** The leftmost position that matches decides [search]. *)
Lemma search_skip (r : regex) (pre s : string) :
  (forall p1 p2, pre = p1 ++ p2 -> p2 <> "" -> match_at r (p2 ++ s) = None) ->
  search r (pre ++ s) = search r s.
Proof.
  induction pre as [|c pre IH]; intros H; [reflexivity|].
  change (String c pre ++ s) with (String c (pre ++ s)).
  cbn [search].
  pose proof (H "" (String c pre) eq_refl ltac:(discriminate)) as E.
  change (String c pre ++ s) with (String c (pre ++ s)) in E. rewrite E.
  apply IH. intros p1 p2 E' N. apply (H (String c p1) p2); [now rewrite E' | exact N].
Qed.

Lemma search_here (r : regex) (s : string) (m : match_array) :
  match_at r s = Some m -> search r s = Some m.
Proof. intros H. destruct s; simpl; now rewrite H. Qed.

Lemma search_none (r : regex) (s : string) :
  (forall p1 p2, s = p1 ++ p2 -> match_at r p2 = None) -> search r s = None.
Proof.
  induction s as [|c s IH]; intros H; simpl.
  - now rewrite (H "" "" eq_refl).
  - rewrite (H "" (String c s) eq_refl).
    apply IH. intros p1 p2 E. apply (H (String c p1) p2). now rewrite E.
Qed.

Lemma search_sound (r : regex) (s : string) (m : match_array) :
  search r s = Some m ->
  exists p1 p2, s = p1 ++ p2 /\ match_at r p2 = Some m.
Proof.
  induction s as [|c s IH]; simpl.
  - destruct (match_at r "") eqn:E; [|discriminate].
    intros H; inversion H; subst. now exists "", "".
  - destruct (match_at r (String c s)) eqn:E.
    + intros H; inversion H; subst. now exists "", (String c s).
    + intros H. destruct (IH H) as (p1 & p2 & -> & Hm).
      now exists (String c p1), p2.
Qed.

End MatcherFacts.

(** ** The URL extractor *)

Section Extractor.

Lemma rep_app_len (k : string -> option mstate) (n : nat) (p : ascii -> bool)
    (w rest : string) :
  String.length w = n -> all_chars p w = true ->
  rep k n p (w ++ rest) = k rest.
Proof. intros <-. apply rep_app. Qed.

Lemma consumed_eq (s u post : string) : s = u ++ post -> consumed s post = u.
Proof. intros ->. apply consumed_app. Qed.

(** At the head of a well-formed URL that ends where the input ends or a
    white space follows, the pattern matches exactly that URL. *)
Lemma match_at_wellformed (u post : string) :
  WellFormedURL u -> at_token_end post ->
  match_at youtubeRegex (u ++ post) = Some (u, [u]).
Proof.
  intros (scheme & sub & host & id & tail & -> & Hs & Hsub & Hh & Hl & Hid & Ht) Hpost.
  assert (Hstar : forall k m, k post = Some m ->
            star_greedy k non_space (tail ++ post) = Some m).
  { intros k m Hk. apply star_greedy_max; auto.
    destruct Hpost as [->|(c & rest & -> & Hc)]; [now left|right].
    exists c, rest. unfold non_space. now rewrite Hc. }
  unfold match_at.
  destruct Hs as [-> | ->]; destruct Hsub as [-> | [-> | ->]];
    destruct Hh as [-> | [-> | ->]];
    rewrite ?sapp_assoc;
    cbn -[rep star_greedy consumed];
    rewrite (rep_app_len _ _ _ _ _ Hl Hid);
    (erewrite Hstar by (unfold accept; reflexivity));
    cbn -[consumed];
    match goal with
    | |- Some (consumed ?S post, _) = Some (?U, _) =>
        rewrite (consumed_eq S U post) by (cbn; rewrite ?sapp_assoc; reflexivity)
    end;
    reflexivity.
Qed.

Lemma span_exists (p : ascii -> bool) (s : string) :
  exists w rest,
    s = w ++ rest /\ all_chars p w = true
    /\ (rest = "" \/ exists c rest', rest = String c rest' /\ p c = false).
Proof.
  induction s as [|c s (w & rest & -> & Hw & Hr)].
  - exists "", "". auto.
  - destruct (p c) eqn:Pc.
    + exists (String c w), rest. simpl. rewrite Pc, Hw. auto.
    + exists "", (String c (w ++ rest)). repeat split. right. now exists c, (w ++ rest).
Qed.

(** Wherever a well-formed URL begins, the pattern matches. *)
Lemma wellformed_prefix_matches (v r : string) :
  WellFormedURL v -> match_at youtubeRegex (v ++ r) <> None.
Proof.
  intros (scheme & sub & host & id & tail & -> & Hs & Hsub & Hh & Hl & Hid & Ht).
  destruct (span_exists non_space r) as (w & rest & -> & Hw & Hrest).
  assert (W : WellFormedURL (scheme ++ sub ++ host ++ id ++ tail ++ w)).
  { exists scheme, sub, host, id, (tail ++ w). repeat split; auto.
    now rewrite all_chars_app, Ht, Hw. }
  assert (E : at_token_end rest).
  { destruct Hrest as [->|(c & rest' & -> & Hc)]; [now left|right].
    exists c, rest'. split; [reflexivity|].
    unfold non_space in Hc. now destruct (is_space c). }
  pose proof (match_at_wellformed _ _ W E) as M.
  replace ((scheme ++ sub ++ host ++ id ++ tail) ++ w ++ rest)
    with ((scheme ++ sub ++ host ++ id ++ tail ++ w) ++ rest)
    by (now rewrite !sapp_assoc).
  now rewrite M.
Qed.

(** Every word of the pattern is a well-formed URL. *)
Lemma youtubeRegex_words (w : string) :
  Matches youtubeRegex w -> WellFormedURL w.
Proof.
  simpl.
  intros (h & w1 & -> & -> & s & w2 & -> & Hs & c & w3 & -> & -> &
          sub & w4 & -> & Hsub & host & w5 & -> & Hhost &
          id & tail & -> & (Hl & Hid) & Ht).
  exists ("http" ++ s ++ "://"), sub, host, id, tail.
  split; [now rewrite !sapp_assoc|].
  split; [destruct Hs as [->| ->]; auto|].
  split.
  { destruct Hsub as [->|(a & b & -> & [->| ->] & ->)]; auto. }
  split.
  { destruct Hhost as [(a & b & -> & -> & [->| ->])| ->]; auto. }
  auto.
Qed.

Lemma match_at_youtube_sound (s whole : string) (caps : list string) :
  match_at youtubeRegex s = Some (whole, caps) ->
  exists rest, s = whole ++ rest /\ WellFormedURL whole.
Proof.
  intros H. destruct (match_at_sound _ _ _ _ H) as (rest & -> & M).
  exists rest. split; [reflexivity | now apply youtubeRegex_words].
Qed.

Lemma match_at_youtube_none (s : string) :
  (forall v r, s = v ++ r -> ~ WellFormedURL v) ->
  match_at youtubeRegex s = None.
Proof.
  intros H. destruct (match_at youtubeRegex s) as [[whole caps]|] eqn:E; [|reflexivity].
  destruct (match_at_youtube_sound _ _ _ E) as (rest & -> & W).
  exfalso. exact (H whole rest eq_refl W).
Qed.

(** C9: when the text is some prose, a well-formed URL up to the next
    white space (or the end), and more prose, and no URL begins in the
    prose in front, the extractor returns exactly that URL, with everything
    that follows the id; when no part of the text is a well-formed URL it
    returns [undefined]; and whatever it returns is a well-formed URL of
    the text. *)
Theorem extractYoutubeURL_spec :
  (forall pre u post,
      WellFormedURL u -> at_token_end post -> no_url_begins_in pre (u ++ post) ->
      extractYoutubeURL (pre ++ u ++ post) = Some u)
  /\ (forall text, contains_no_url text -> extractYoutubeURL text = None)
  /\ (forall text u,
        extractYoutubeURL text = Some u ->
        exists pre post, text = pre ++ u ++ post /\ WellFormedURL u).
Proof.
  split; [|split].
  - intros pre u post W E N. unfold extractYoutubeURL.
    rewrite search_skip.
    + now rewrite (search_here _ _ _ (match_at_wellformed u post W E)).
    + intros p1 p2 Hp Hne. apply match_at_youtube_none.
      intros v r Hv. exact (N p1 p2 v r Hp Hne Hv).
  - intros text N. unfold extractYoutubeURL.
    rewrite search_none; [reflexivity|].
    intros p1 p2 Hp. apply match_at_youtube_none.
    intros v r Hv. apply (N p1 v r). now rewrite Hp, Hv.
  - intros text u. unfold extractYoutubeURL.
    destruct (search youtubeRegex text) as [[whole caps]|] eqn:S; [|discriminate].
    intros H; inversion H; subst whole; clear H.
    destruct (search_sound _ _ _ S) as (p1 & p2 & -> & M).
    destruct (match_at_youtube_sound _ _ _ M) as (rest & -> & W).
    now exists p1, rest.
Qed.

(** The hypotheses of the specification, decided by running the matcher. *)
Lemma no_url_begins_in_dec (pre rest : string) :
  (forall p1 p2, pre = p1 ++ p2 -> p2 <> "" ->
                 match_at youtubeRegex (p2 ++ rest) = None) ->
  no_url_begins_in pre rest.
Proof.
  intros H p1 p2 v r Hp Hne Hv W.
  apply (wellformed_prefix_matches v r W). rewrite <- Hv. now apply (H p1 p2).
Qed.

Lemma search_None_here (r : regex) (s : string) :
  search r s = None -> match_at r s = None.
Proof.
  destruct s; cbn [search]; destruct (match_at r _); congruence.
Qed.

Lemma search_None_tail (r : regex) (c : ascii) (s : string) :
  search r (String c s) = None -> search r s = None.
Proof.
  cbn [search]. destruct (match_at r (String c s)); congruence.
Qed.

Lemma contains_no_url_dec (text : string) :
  extractYoutubeURL text = None -> contains_no_url text.
Proof.
  intros H a v b -> W. unfold extractYoutubeURL in H.
  destruct (search youtubeRegex (a ++ v ++ b)) as [[whole caps]|] eqn:S; [discriminate|].
  clear H. revert S. induction a as [|c a IH]; intros S.
  - apply (wellformed_prefix_matches v b W).
    now apply search_None_here.
  - apply IH. now apply (search_None_tail _ c).
Qed.

Lemma no_match_inside_spec (r : regex) (pre rest : string) :
  no_match_inside r pre rest = true ->
  forall p1 p2, pre = p1 ++ p2 -> p2 <> "" -> match_at r (p2 ++ rest) = None.
Proof.
  induction pre as [|c pre IH]; intros H p1 p2 E N.
  - destruct p1; [simpl in E; congruence | discriminate].
  - cbn [no_match_inside] in H.
    destruct (match_at r (String c pre ++ rest)) eqn:M; [discriminate|].
    destruct p1 as [|c1 p1]; simpl in E.
    + now subst p2.
    + inversion E; subst. now apply (IH H p1 p2).
Qed.

(** The specification at a message with prose on both sides of a link, and
    at a message without a link. *)
Lemma extractYoutubeURL_spec_witness :
  (WellFormedURL "https://youtu.be/dQw4w9WgXcQ?feature=share"
   /\ at_token_end " now"
   /\ no_url_begins_in "check this out "
        ("https://youtu.be/dQw4w9WgXcQ?feature=share" ++ " now")
   /\ extractYoutubeURL
        ("check this out " ++ "https://youtu.be/dQw4w9WgXcQ?feature=share" ++ " now")
      = Some "https://youtu.be/dQw4w9WgXcQ?feature=share")
  /\ (contains_no_url "no link in here, only http://example.com/watch?v=1"
      /\ extractYoutubeURL "no link in here, only http://example.com/watch?v=1" = None).
Proof.
  assert (W : WellFormedURL "https://youtu.be/dQw4w9WgXcQ?feature=share").
  { exists "https://", "", "youtu.be/", "dQw4w9WgXcQ", "?feature=share".
    repeat split; auto. }
  assert (E : at_token_end " now").
  { right. exists " "%char, "now". split; reflexivity. }
  assert (N : no_url_begins_in "check this out "
                ("https://youtu.be/dQw4w9WgXcQ?feature=share" ++ " now")).
  { apply no_url_begins_in_dec, no_match_inside_spec. reflexivity. }
  assert (C : contains_no_url "no link in here, only http://example.com/watch?v=1").
  { apply contains_no_url_dec. reflexivity. }
  split.
  - split; [exact W | split; [exact E | split; [exact N|]]].
    exact (proj1 extractYoutubeURL_spec _ _ _ W E N).
  - split; [exact C|].
    exact (proj1 (proj2 extractYoutubeURL_spec) _ C).
Defined.

End Extractor.

(** ** Audio tags from the description file *)

Section Delivery.
Import CallbackQueryHandler.

Lemma star_lazy_app (k : string -> option mstate) (p : ascii -> bool)
    (w rest : string) (m : mstate) :
  all_chars p w = true ->
  (forall w1 w2, w = w1 ++ w2 -> w2 <> "" -> k (w2 ++ rest) = None) ->
  k rest = Some m ->
  star_lazy k p (w ++ rest) = Some m.
Proof.
  induction w as [|c w IH]; intros Hw Hk Hm.
  - simpl. destruct rest; simpl; now rewrite Hm.
  - simpl in Hw. apply andb_true_iff in Hw. destruct Hw as [Pc Hw].
    change (String c w ++ rest) with (String c (w ++ rest)).
    cbn [star_lazy].
    pose proof (Hk "" (String c w) eq_refl ltac:(discriminate)) as E.
    change (String c w ++ rest) with (String c (w ++ rest)) in E.
    rewrite E, Pc. apply IH; auto.
    intros w1 w2 E' N. apply (Hk (String c w1) w2); [now rewrite E'|exact N].
Qed.

Lemma char_free_app_r (x : ascii) (a b : string) :
  char_free x (a ++ b) -> char_free x b.
Proof.
  unfold char_free. rewrite all_chars_app. intros H.
  apply andb_true_iff in H. tauto.
Qed.

Lemma star_lazy_until (x : ascii) (l : string) (p : ascii -> bool)
    (k : string -> string -> option mstate) (d rest : string) (m : mstate) :
  all_chars p d = true -> char_free x d ->
  k (String x l ++ rest) rest = Some m ->
  star_lazy (fun s => match strip_prefix (String x l) s with
                      | Some r => k s r
                      | None => None
                      end) p (d ++ String x l ++ rest) = Some m.
Proof.
  intros Hp Hx Hk. apply star_lazy_app; [exact Hp| |].
  - intros w1 w2 -> N. apply char_free_app_r in Hx.
    destruct w2 as [|c w2]; [congruence|].
    apply char_free_cons in Hx. destruct Hx as [Hc _].
    change (String c w2 ++ String x l ++ rest) with (String c (w2 ++ String x l ++ rest)).
    cbn [strip_prefix]. now rewrite Hc.
  - now rewrite strip_prefix_app.
Qed.

Lemma title_match (line d t : string) :
  title_shape line d t -> match_at titleRegex line = Some (line, [t]).
Proof.
  intros (-> & Hd & Hb & Ht & Hs).
  unfold match_at, titleRegex. cbn [run].
  rewrite strip_prefix_app.
  change ("]</b> " ++ t) with ("]</b>" ++ " " ++ t).
  erewrite star_lazy_until; [ | exact Hd | exact Hb | ].
  2:{ apply (star_greedy_max _ is_space " " t); [reflexivity | |].
      - destruct t as [|c t]; [now left|right]. now exists c, t.
      - rewrite <- (sapp_nil_r t) at 1.
        apply star_greedy_max; [exact Ht | now left | reflexivity]. }
  cbn [app]. rewrite (consumed_eq t t "") by (now rewrite sapp_nil_r).
  f_equal. f_equal.
  apply consumed_eq. now rewrite sapp_nil_r.
Qed.

Lemma author_match (line a x : string) :
  author_shape line a x ->
  exists whole, match_at authorRegex line = Some (whole, [a]).
Proof.
  intros (-> & Ha & Hb).
  unfold match_at, authorRegex. cbn [run].
  rewrite strip_prefix_app.
  erewrite (star_lazy_until "<" "/b>" dot
              (fun s r => accept r ([] ++ [consumed (a ++ "</b>" ++ x) s])%list));
    [ | exact Ha | exact Hb | reflexivity ].
  cbn [app]. rewrite (consumed_eq _ a ("</b>" ++ x)) by reflexivity.
  eexists. reflexivity.
Qed.

Lemma title_prefix_of_match (line : string) (m : match_array) :
  match_at titleRegex line = Some m -> has_title_prefix line.
Proof.
  destruct m as [whole caps]. intros H.
  destruct (match_at_sound _ _ _ _ H) as (rest & -> & M).
  simpl in M.
  destruct M as (w1 & w2 & -> & -> & d & w3 & -> & Hd & w4 & w5 & -> & -> & _).
  exists d, (w5 ++ rest). split; [|exact Hd].
  now rewrite !sapp_assoc.
Qed.

Lemma author_prefix_of_match (line : string) (m : match_array) :
  match_at authorRegex line = Some m -> has_author_prefix line.
Proof.
  destruct m as [whole caps]. intros H.
  destruct (match_at_sound _ _ _ _ H) as (rest & -> & M).
  simpl in M.
  destruct M as (w1 & w2 & -> & -> & a & w3 & -> & Ha & ->).
  exists a, rest. split; [|exact Ha].
  now rewrite !sapp_assoc.
Qed.

Lemma split_fuel_no_sep (x : ascii) (s : string) (n : nat) :
  char_free x s -> split_fuel n (String x "") s = [s].
Proof.
  intros H. destruct n; [reflexivity|].
  cbn [split_fuel]. now rewrite (find_sub_char_None _ _ H).
Qed.

(** A text of two lines or more splits into its first line, its second
    line, and the rest. *)
Lemma split_two_lines (line0 line1 rest : string) :
  char_free "010" line0 -> char_free "010" line1 -> at_line_end rest ->
  exists more, split nl (line0 ++ nl ++ line1 ++ rest) = line0 :: line1 :: more.
Proof.
  intros H0 H1 Hrest. unfold split, at_line_end in *. unfold nl in *.
  set (x := "010"%char) in *.
  assert (L : String.length (line0 ++ String x "" ++ line1 ++ rest)
              = S (String.length line0 + String.length line1 + String.length rest)).
  { rewrite !slength_app. simpl. lia. }
  rewrite L. cbn [split_fuel].
  rewrite (find_sub_char_first x line0 _ H0).
  destruct Hrest as [->|(r & ->)].
  - rewrite sapp_nil_r. exists []. f_equal.
    apply (split_fuel_no_sep x); exact H1.
  - assert (L2 : String.length (String x "" ++ r) = S (String.length r)) by reflexivity.
    rewrite L2.
    replace (String.length line0 + String.length line1 + S (String.length r))%nat
      with (S (String.length line0 + String.length line1 + String.length r)) by lia.
    cbn [split_fuel].
    rewrite (find_sub_char_first x line1 _ H1).
    eexists. reflexivity.
Qed.

Lemma send_audio_without_description (h : t) (w : world) :
  isAudio h = true ->
  obj_get (files w) (descrFilePath h) = None ->
  fst (send h w)
  = Normal (ReplyWithAudio (storedFilePath h) (Some "") (Some "")
              (parseInt_opt (duration h)) (thumbFilePath h)).
Proof.
  intros Ha Hf.
  unfold send, bindM, try_catch, readFileSync, emit, ret; simpl.
  rewrite Hf; simpl. rewrite Ha; simpl. reflexivity.
Qed.

Lemma send_audio_with_description (h : t) (w : world) (descr : string) :
  isAudio h = true ->
  obj_get (files w) (descrFilePath h) = Some descr ->
  fst (send h w)
  = bind (audioTags (video_id h) descr)
      (fun tags => Normal (ReplyWithAudio (storedFilePath h) (fst tags) (snd tags)
                             (parseInt_opt (duration h)) (thumbFilePath h))).
Proof.
  intros Ha Hf.
  unfold send, bindM, try_catch, readFileSync, emit, ret; simpl.
  rewrite Hf; simpl. rewrite Ha; simpl.
  destruct (audioTags (video_id h) descr); reflexivity.
Qed.

(** C7, as the code has it.  With no description file the title and the
    performer are both empty.  With a description of two lines or more the
    title is the text after the bracketed duration of line one, or the video
    id when the line has not that shape or the text is empty; the performer
    is the bold author of line two without its first [" - Topic"], or
    ["Unknown Artist"] when the line has not that shape or nothing is left
    of the author. *)
Theorem audio_tags_from_description :
  (forall h w,
      isAudio h = true ->
      obj_get (files w) (descrFilePath h) = None ->
      fst (send h w)
      = Normal (ReplyWithAudio (storedFilePath h) (Some "") (Some "")
                  (parseInt_opt (duration h)) (thumbFilePath h)))
  /\ (forall h w descr,
        isAudio h = true ->
        obj_get (files w) (descrFilePath h) = Some descr ->
        fst (send h w)
        = bind (audioTags (video_id h) descr)
            (fun tags => Normal (ReplyWithAudio (storedFilePath h) (fst tags) (snd tags)
                                   (parseInt_opt (duration h)) (thumbFilePath h))))
  /\ (forall vid line0 line1 rest,
        char_free "010" line0 -> char_free "010" line1 -> at_line_end rest ->
        exists title performer,
          audioTags vid (line0 ++ nl ++ line1 ++ rest) = Normal (title, performer)
          /\ (forall d t, title_shape line0 d t ->
                          title = match t with "" => vid | _ => Some t end)
          /\ (~ has_title_prefix line0 -> title = vid)
          /\ (forall a x, author_shape line1 a x ->
                          performer =
                            match replace_first " - Topic" "" a with
                            | "" => Some "Unknown Artist"
                            | a' => Some a'
                            end)
          /\ (~ has_author_prefix line1 -> performer = Some "Unknown Artist"))
  /\ audioTags (Some "dQw4w9WgXcQ")
       ("<b>[3m 32s]</b> Title" ++ nl ++ "By <b>Artist - Topic</b>" ++ nl
        ++ "https://youtu.be/dQw4w9WgXcQ")
     = Normal (Some "Title", Some "Artist").
Proof.
  split; [exact send_audio_without_description|].
  split; [exact send_audio_with_description|].
  split; [|reflexivity].
  intros vid line0 line1 rest H0 H1 Hrest.
  destruct (split_two_lines _ _ _ H0 H1 Hrest) as (more & Hsplit).
  unfold audioTags. rewrite Hsplit. unfold line_match. cbn [nth_error bind].
  eexists _, _. split; [reflexivity|].
  split; [|split; [|split]].
  - intros d t Hshape. rewrite (title_match _ _ _ Hshape).
    cbn [capture1]. unfold js_or. cbn [truthy_str]. now destruct t.
  - intros Hno. destruct (match_at titleRegex line0) as [m|] eqn:M.
    + exfalso. apply Hno. exact (title_prefix_of_match _ _ M).
    + reflexivity.
  - intros a x Hshape. destruct (author_match _ _ _ Hshape) as (whole & ->).
    cbn [capture1 option_map]. unfold js_or. cbn [truthy_str].
    now destruct (replace_first " - Topic" "" a).
  - intros Hno. destruct (match_at authorRegex line1) as [m|] eqn:M.
    + exfalso. apply Hno. exact (author_prefix_of_match _ _ M).
    + reflexivity.
Qed.

(** A description of the expected shapes, tag by tag. *)
Lemma audio_tags_from_description_witness :
  exists title performer,
    audioTags (Some "dQw4w9WgXcQ")
      ("<b>[3m 32s]</b> Title" ++ nl ++ "By <b>Artist - Topic</b>"
       ++ (nl ++ "https://youtu.be/dQw4w9WgXcQ"))
    = Normal (title, performer)
    /\ title = Some "Title" /\ performer = Some "Artist".
Proof.
  destruct (proj1 (proj2 (proj2 audio_tags_from_description))
              (Some "dQw4w9WgXcQ") "<b>[3m 32s]</b> Title" "By <b>Artist - Topic</b>"
              (nl ++ "https://youtu.be/dQw4w9WgXcQ")
              eq_refl eq_refl
              (or_intror (ex_intro _ "https://youtu.be/dQw4w9WgXcQ" eq_refl)))
    as (title & performer & E & T & _ & A & _).
  exists title, performer. split; [exact E|]. split.
  - apply (T "3m 32s" "Title"). repeat split.
  - apply (A "Artist - Topic" ""). repeat split.
Defined.

(** An audio session whose description file is gone. *)
Definition audio_session : t := new "/app" 7 8 "dQw4w9WgXcQ|ba|212|||55".

(** C7, as the claim states it, fails when the description file is absent:
    the title is empty, not the video id, and the performer is empty, not
    ["Unknown Artist"]. *)
Lemma audio_without_description_has_empty_tags :
  video_id audio_session = Some "dQw4w9WgXcQ"
  /\ fst (send audio_session
            {| files := [("/app/dQw4w9WgXcQ.m4a", "m4a")]; trace := [];
               write_error := accepts_writes |})
     = Normal (ReplyWithAudio "/app/dQw4w9WgXcQ.m4a" (Some "") (Some "")
                 (Some 212%Z) "/app/dQw4w9WgXcQ.m4a.jpg")
  /\ fst (send audio_session
            {| files := [("/app/dQw4w9WgXcQ.m4a", "m4a")]; trace := [];
               write_error := accepts_writes |})
     <> Normal (ReplyWithAudio "/app/dQw4w9WgXcQ.m4a" (Some "dQw4w9WgXcQ")
                  (Some "Unknown Artist") (Some 212%Z) "/app/dQw4w9WgXcQ.m4a.jpg").
Proof. repeat split. discriminate. Qed.

(** A description cut after its first line: reading [match] of the missing
    second line throws, and [send] fails. *)
Lemma audio_with_one_line_description_throws :
  fst (send audio_session
         {| files := [("/app/dQw4w9WgXcQ.m4a", "m4a");
                      ("/app/dQw4w9WgXcQ-descr.txt", "<b>[3m 32s]</b> Title")];
            trace := []; write_error := accepts_writes |})
  = Throw (TypeError "Cannot read properties of undefined (reading 'match')").
Proof. reflexivity. Qed.

End Delivery.

(* ================================================================== *)
(** * Part III: further properties of the handlers                    *)
(* ================================================================== *)

(** ** More on the quality mapping *)

Lemma getQualityID_cases (h : Z) :
  getQualityID h =
    (if h <? 360 then "240p"
     else if h <? 480 then "360p"
     else if h <? 720 then "480p"
     else if h <? 1080 then "720p"
     else if h <? 1440 then "1080p"
     else if h <? 2160 then "1440p"
     else "4K").
Proof.
  unfold getQualityID, QUALITY_LEVELS, first_level; simpl threshold; simpl label.
  repeat match goal with
         | |- context [?a <? ?b] => destruct (Z.ltb_spec a b); try lia
         end; reflexivity.
Qed.

(** The position of a height's tier in [allowedFormats]. *)
Lemma tier_index_cases (h : Z) :
  indexOf allowedFormats (getQualityID h) =
    (if h <? 360 then 1
     else if h <? 480 then 2
     else if h <? 720 then 3
     else if h <? 1080 then 4
     else if h <? 1440 then 5
     else if h <? 2160 then 6
     else 7).
Proof.
  rewrite getQualityID_cases.
  repeat match goal with
         | |- context [?a <? ?b] => destruct (Z.ltb_spec a b)
         end; reflexivity.
Qed.

(** The mapping from heights to tiers is monotone in the order of
    [allowedFormats], and its values are the labels at the positions 1 to
    7 of that list. *)
Theorem getQualityID_monotone (h1 h2 : Z) :
  h1 <= h2 ->
  1 <= indexOf allowedFormats (getQualityID h1)
    <= indexOf allowedFormats (getQualityID h2)
  /\ indexOf allowedFormats (getQualityID h2) <= 7
  /\ In (getQualityID h1) allowedFormats.
Proof.
  intros H. rewrite !tier_index_cases.
  split; [|split].
  - repeat match goal with
           | |- context [?a <? ?b] => destruct (Z.ltb_spec a b)
           end; lia.
  - repeat match goal with
           | |- context [?a <? ?b] => destruct (Z.ltb_spec a b)
           end; lia.
  - rewrite getQualityID_cases.
    repeat match goal with
           | |- context [?a <? ?b] => destruct (Z.ltb_spec a b)
           end; simpl; tauto.
Qed.

Lemma getQualityID_monotone_witness :
  719 <= 720
  /\ 1 <= indexOf allowedFormats (getQualityID 719)
       <= indexOf allowedFormats (getQualityID 720)
  /\ indexOf allowedFormats (getQualityID 720) <= 7
  /\ In (getQualityID 719) allowedFormats.
Proof.
  split; [lia | apply (getQualityID_monotone 719 720); lia].
Defined.

(** Two heights of one position in [allowedFormats] are of one tier. *)
Lemma tier_index_inj (h1 h2 : Z) :
  indexOf allowedFormats (getQualityID h1) = indexOf allowedFormats (getQualityID h2) ->
  getQualityID h1 = getQualityID h2.
Proof.
  rewrite !tier_index_cases, !getQualityID_cases.
  repeat match goal with
         | |- context [?a <? ?b] => destruct (Z.ltb_spec a b)
         end; intros E; try reflexivity; discriminate E.
Qed.

(** ** More on the size formatter *)

Section FormatSizeRange.
Import URLMessageHandler.

(** A unit is printed exactly for the sizes from one kibibyte up to, but
    not including, one tebibyte; there the number lies between 1 and 1024.
    Below one kibibyte the byte count itself is printed, followed by the
    text of [undefined]; a count that is not positive gives [NaN] and
    [undefined]. *)
Theorem formatSize_unit_range (bytes : Z) :
  (1024 <= bytes < 1024 ^ 4 ->
   exists n u,
     In u sizes /\ 10 <= n <= 10240
     /\ formatSize bytes = tenths_to_string n ++ u)
  /\ (0 < bytes < 1024 -> formatSize bytes = num_to_string bytes ++ "undefined")
  /\ (bytes <= 0 -> formatSize bytes = "NaNundefined").
Proof.
  split; [|split].
  - intros [Hlo Hhi].
    assert (Hb : 0 < bytes) by lia.
    destruct (unit_index_bounds bytes Hb) as (Hi & Hl & Hu).
    set (i := unit_index bytes) in *.
    assert (Hi0 : 0 <= i).
    { destruct (Z.eq_dec i (-1)) as [E|]; [|lia].
      rewrite E in Hu. simpl in Hu. lia. }
    assert (Hi2 : i <= 2).
    { destruct (Z_le_gt_dec i 2) as [|G]; [assumption|].
      assert (1024 ^ 4 <= 1024 ^ (i + 1)) by (apply Z.pow_le_mono_r; lia).
      lia. }
    assert (Hd : 0 < 1024 ^ (i + 1)) by (apply Z.pow_pos_nonneg; lia).
    assert (Hu' : bytes < 1024 * 1024 ^ (i + 1)).
    { replace (i + 2) with (Z.succ (i + 1)) in Hu by lia.
      rewrite Z.pow_succ_r in Hu by lia. exact Hu. }
    pose proof (nearest_tenths_spec bytes _ Hd) as [N1 N2].
    exists (nearest_tenths bytes (1024 ^ (i + 1))), (sizes_at i).
    split; [|split].
    + rewrite sizes_at_cases.
      assert (i = 0 \/ i = 1 \/ i = 2) as [->|[->| ->]] by lia; simpl; tauto.
    + split; nia.
    + unfold formatSize. destruct (Z.leb_spec bytes 0); [lia|]. reflexivity.
  - intros [Hlo Hhi]. unfold formatSize.
    destruct (Z.leb_spec bytes 0); [lia|]. cbv zeta.
    assert (E : unit_index bytes = -1).
    { destruct (unit_index_bounds bytes Hlo) as (Hi & Hl & Hu).
      destruct (Z.eq_dec (unit_index bytes) (-1)) as [E|]; [exact E|].
      assert (1024 ^ 1 <= 1024 ^ (unit_index bytes + 1))
        by (apply Z.pow_le_mono_r; lia).
      simpl in *. lia. }
    rewrite E. simpl Z.add. rewrite Z.pow_0_r.
    unfold nearest_tenths.
    replace ((20 * bytes + 1) / (2 * 1)) with (10 * bytes)
      by (apply Z.div_unique with (r := 1); lia).
    unfold tenths_to_string.
    replace (10 * bytes mod 10) with 0
      by (apply Z.mod_unique with (q := bytes); lia).
    simpl Z.eqb. cbv iota.
    replace (10 * bytes / 10) with bytes
      by (apply Z.div_unique with (r := 0); lia).
    reflexivity.
  - intros H. unfold formatSize. destruct (Z.leb_spec bytes 0); [reflexivity | lia].
Qed.

End FormatSizeRange.

(** ** Durations *)

(** For a duration that is not negative, the text shows the hours, the
    minutes below 60 and the seconds below 60 that add up to it; the hours
    are left out when there is none. *)
Theorem getDurationString_parts (totalSeconds : Z) :
  0 <= totalSeconds ->
  exists h m s,
    totalSeconds = 3600 * h + 60 * m + s
    /\ 0 <= h /\ 0 <= m < 60 /\ 0 <= s < 60
    /\ getDurationString totalSeconds =
         (if 0 <? h then num_to_string h ++ "h " else "")
         ++ num_to_string m ++ "m " ++ num_to_string s ++ "s".
Proof.
  intros H.
  exists (totalSeconds / 3600), (totalSeconds mod 3600 / 60), (totalSeconds mod 60).
  pose proof (Z.div_mod totalSeconds 3600 ltac:(lia)) as E1.
  pose proof (Z.mod_pos_bound totalSeconds 3600 ltac:(lia)) as B1.
  pose proof (Z.div_mod (totalSeconds mod 3600) 60 ltac:(lia)) as E2.
  pose proof (Z.mod_pos_bound (totalSeconds mod 3600) 60 ltac:(lia)) as B2.
  assert (E3 : (totalSeconds mod 3600) mod 60 = totalSeconds mod 60).
  { rewrite <- (Z.mod_mod_divide totalSeconds 3600 60) by (exists 60; lia). reflexivity. }
  assert (Hh : 0 <= totalSeconds / 3600) by (apply Z.div_pos; lia).
  assert (Hm : 0 <= totalSeconds mod 3600 / 60 < 60).
  { split; [apply Z.div_pos; lia|]. apply Z.div_lt_upper_bound; lia. }
  split; [lia|]. split; [exact Hh|]. split; [exact Hm|].
  split; [rewrite <- E3; apply Z.mod_pos_bound; lia|].
  unfold getDurationString.
  rewrite !Z.rem_mod_nonneg by lia.
  destruct (0 <? totalSeconds / 3600); [|reflexivity].
  now rewrite !sapp_assoc.
Qed.

Lemma getDurationString_parts_witness :
  0 <= 3812
  /\ exists h m s,
       3812 = 3600 * h + 60 * m + s
       /\ 0 <= h /\ 0 <= m < 60 /\ 0 <= s < 60
       /\ getDurationString 3812 =
            (if 0 <? h then num_to_string h ++ "h " else "")
            ++ num_to_string m ++ "m " ++ num_to_string s ++ "s".
Proof.
  split; [lia | apply (getDurationString_parts 3812); lia].
Defined.

(** ** More on sorting *)

Section SortMore.
Context {A : Type}.

Lemma insert_sorted_perm (c : A -> A -> Z) (x : A) (l : list A) :
  Permutation (insert_sorted c x l) (x :: l).
Proof.
  induction l as [|y l IH]; simpl; [reflexivity|].
  destruct (c x y <=? 0); [reflexivity|].
  rewrite IH. apply perm_swap.
Qed.

Lemma sort_perm (c : A -> A -> Z) (l : list A) : Permutation (sort c l) l.
Proof.
  induction l as [|y l IH]; simpl; [reflexivity|].
  rewrite insert_sorted_perm. now constructor.
Qed.

Lemma insert_sorted_ext (c1 c2 : A -> A -> Z) (x : A) (l : list A) :
  (forall a b, c1 a b = c2 a b) -> insert_sorted c1 x l = insert_sorted c2 x l.
Proof.
  intros E. induction l as [|y l IH]; simpl; [reflexivity|].
  now rewrite E, IH.
Qed.

Lemma sort_ext (c1 c2 : A -> A -> Z) (l : list A) :
  (forall a b, c1 a b = c2 a b) -> sort c1 l = sort c2 l.
Proof.
  intros E. induction l as [|y l IH]; simpl; [reflexivity|].
  now rewrite IH, (insert_sorted_ext c1 c2 _ _ E).
Qed.

Lemma strictly_sorted (key : A -> Z) (l : list A) :
  StronglySorted (fun a b => key a <= key b) l ->
  NoDup l ->
  (forall a b, In a l -> In b l -> key a = key b -> a = b) ->
  StronglySorted (fun a b => key a < key b) l.
Proof.
  induction l as [|x l IH]; intros S N K; [constructor|].
  inversion S as [|? ? S' F]; subst. inversion N as [|? ? Hnot N']; subst.
  constructor.
  - apply IH; auto. intros a b Ha Hb. apply K; now right.
  - rewrite Forall_forall in *. intros y Hy.
    specialize (F y Hy). simpl in F.
    destruct (Z.eq_dec (key x) (key y)) as [E|]; [|lia].
    exfalso. apply Hnot. rewrite (K x y); auto; [now left | now right].
Qed.

End SortMore.

(** ** The audio track of the menu *)

Section LargestAudio.
Import URLMessageHandler.

(** [largest_audio] is an audio-bearing entry of known filesize whose
    filesize no other such entry exceeds; it is [undefined] exactly when
    the list has no such entry. *)
Theorem find_largest_audio_is_largest (formats : list FormatEntry) :
  match find_largest_audio formats with
  | Some la =>
      In la formats /\ is_audio_candidate la = true
      /\ forall g, In g formats -> is_audio_candidate g = true ->
                   size_of g <= size_of la
  | None => forall g, In g formats -> is_audio_candidate g = false
  end.
Proof.
  unfold find_largest_audio.
  rewrite (sort_ext _ (fun a b => (fun f => - size_of f) a - (fun f => - size_of f) b))
    by (intros; lia).
  pose proof (sort_sorted (fun f => - size_of f) (filter is_audio_candidate formats)) as S.
  pose proof (fun g => In_sort
    (fun a b => (fun f => - size_of f) a - (fun f => - size_of f) b) g
    (filter is_audio_candidate formats)) as I.
  destruct (sort _ (filter is_audio_candidate formats)) as [|la rest]; simpl.
  - intros g Hg. destruct (is_audio_candidate g) eqn:C; [|reflexivity].
    exfalso. apply (I g). apply filter_In. now split.
  - pose proof (proj1 (I la) (or_introl eq_refl)) as Hla.
    apply filter_In in Hla. destruct Hla as [Hin Hc].
    split; [exact Hin|]. split; [exact Hc|].
    intros g Hg Cg.
    assert (Hg' : In g (la :: rest)) by (apply I, filter_In; now split).
    destruct Hg' as [->|Hg']; [lia|].
    inversion S as [|? ? _ Hall]; subst.
    rewrite Forall_forall in Hall. specialize (Hall g Hg'). simpl in Hall. lia.
Qed.

End LargestAudio.

(** ** The order of the menu *)

Section MenuOrder.
Import URLMessageHandler.

Lemma ladder_keys_are_tiers (formats : list FormatEntry) (e : string * tier_entry) :
  In e (tier_ladder formats) -> exists f, fst e = tier_of f.
Proof.
  intros H.
  assert (K : In (fst e) (obj_keys (tier_ladder formats))) by (now apply in_map).
  apply obj_get_keys in K. destruct K as [v Hv].
  unfold tier_ladder in Hv. rewrite ladder_fold_get in Hv.
  destruct (find (fun f => String.eqb (tier_of f) (fst e)) (rev (videoformats formats)))
    as [f|] eqn:F; [|discriminate].
  apply find_some in F. destruct F as [_ F]. apply String.eqb_eq in F.
  now exists f.
Qed.

Lemma NoDup_map_fst_inj {V} (o : object V) (e1 e2 : string * V) :
  NoDup (obj_keys o) -> In e1 o -> In e2 o -> fst e1 = fst e2 -> e1 = e2.
Proof.
  unfold obj_keys. induction o as [|e o IH]; simpl; [tauto|].
  intros N H1 H2 E. inversion N as [|? ? Hnot N']; subst.
  destruct H1 as [->|H1], H2 as [->|H2]; auto.
  - exfalso. apply Hnot. rewrite E. now apply in_map.
  - exfalso. apply Hnot. rewrite <- E. now apply in_map.
Qed.

(** The menu, when the list has an audio track: the audio button in a
    row of its own, then one row of one button for each slot of the tier
    ladder, no slot lost or repeated, the tiers in the strictly ascending
    order of [allowedFormats] whatever the order of the format list. *)
Theorem menu_rows_follow_tier_order
    (cwd : string) (h : t) (info : VideoInfo) (w : world) (la : FormatEntry) :
  find_largest_audio (info_formats info) = Some la ->
  exists tiers,
    fst (handle cwd h (Normal info) w)
    = Normal (SelectOption
        ([music_button h info (size_of la)]
         :: map (fun e => [tier_button h info (info_id info) (size_of la) e]) tiers))
    /\ Permutation tiers (tier_ladder (info_formats info))
    /\ StronglySorted (fun e1 e2 => tier_index e1 < tier_index e2) tiers.
Proof.
  intros Hla.
  exists (sorted_entries (tier_ladder (info_formats info))).
  split; [|split].
  - pose proof (processVideoInfo_result cwd h info w) as Hr.
    unfold handle.
    destruct (processVideoInfo cwd h info w) as [r w']. simpl in Hr. subst r.
    simpl. unfold buildInlineKeyboard; simpl. now rewrite Hla.
  - apply sort_perm.
  - set (o := tier_ladder (info_formats info)).
    apply strictly_sorted.
    + exact (sort_sorted tier_index o).
    + apply (Permutation_NoDup (l := o)); [symmetry; apply sort_perm|].
      apply (NoDup_map_inv fst). apply ladder_fold_NoDup. constructor.
    + intros e e' He He' E.
      apply (In_sort _ e o) in He. apply (In_sort _ e' o) in He'.
      destruct (ladder_keys_are_tiers _ _ He) as (f & Hf).
      destruct (ladder_keys_are_tiers _ _ He') as (f' & Hf').
      unfold tier_index in E. rewrite Hf, Hf' in E.
      apply tier_index_inj in E.
      apply (NoDup_map_fst_inj o); auto.
      * apply ladder_fold_NoDup. constructor.
      * now rewrite Hf, Hf'.
Qed.

End MenuOrder.

(** ** Sanitized error text *)

Section Sanitize.

Lemma char_free_app (x : ascii) (a b : string) :
  char_free x (a ++ b) <-> char_free x a /\ char_free x b.
Proof.
  unfold char_free. rewrite all_chars_app. apply andb_true_iff.
Qed.

Lemma char_free_drop (x : ascii) (n : nat) (s : string) :
  char_free x s -> char_free x (drop n s).
Proof.
  revert s; induction n as [|n IH]; intros s H; [now destruct s|].
  destruct s as [|c s]; [exact H|]. simpl.
  apply IH. apply char_free_cons in H. tauto.
Qed.

Lemma drop_app (a b : string) : drop (String.length a) (a ++ b) = b.
Proof. induction a as [|x a IH]; simpl; [now destruct b | exact IH]. Qed.

Lemma char_free_String (x c : ascii) (s : string) :
  Ascii.eqb x c = false -> char_free x s -> char_free x (String c s).
Proof.
  unfold char_free; simpl. intros H ->. unfold is_not.
  rewrite Ascii.eqb_sym, H. reflexivity.
Qed.

(** Deleting matches adds no character. *)
Lemma replace_all_fuel_char_free (x : ascii) (r : regex) (n : nat) (s : string) :
  char_free x s -> char_free x (replace_all_fuel n r "" s).
Proof.
  revert s; induction n as [|n IH]; intros s H; [exact H|].
  cbn [replace_all_fuel].
  destruct (match_at r s) as [[[|c m] caps]|].
  - destruct s as [|c s]; [reflexivity|]. simpl.
    apply char_free_cons in H. destruct H as [Hc Hs].
    apply char_free_String; [exact Hc | now apply IH].
  - cbn [append]. apply IH. now apply char_free_drop.
  - destruct s as [|c s]; [reflexivity|].
    apply char_free_cons in H. destruct H as [Hc Hs].
    apply char_free_String; [exact Hc | now apply IH].
Qed.

(** A match of the tag pattern is a ["<"], a run without [">"], and a
    [">"]. *)
Lemma tag_match_sound (s whole : string) (caps : list string) :
  match_at tagRegex s = Some (whole, caps) ->
  exists w rest, whole = "<" ++ w ++ ">" /\ s = whole ++ rest.
Proof.
  intros H. destruct (match_at_sound _ _ _ _ H) as (rest & -> & M).
  simpl in M. destruct M as (w1 & w2 & -> & -> & w & w3 & -> & _ & ->).
  now exists w, rest.
Qed.

(** Where a ["<"] has a [">"] after it, the pattern matches. *)
Lemma tag_match_complete (w rest : string) :
  char_free ">" w ->
  match_at tagRegex ("<" ++ w ++ ">" ++ rest) = Some ("<" ++ w ++ ">", []).
Proof.
  intros Hw. unfold match_at, tagRegex. cbn [run].
  rewrite strip_prefix_app.
  erewrite (star_greedy_max _ (is_not ">") w (">" ++ rest));
    [ | exact Hw | right; now exists ">"%char, rest
      | rewrite strip_prefix_app; reflexivity ].
  cbv beta iota. f_equal. f_equal. apply consumed_eq. now rewrite !sapp_assoc.
Qed.

Lemma first_occurrence (x : ascii) (s : string) :
  char_free x s
  \/ exists w rest, s = w ++ String x "" ++ rest /\ char_free x w.
Proof.
  destruct (span_exists (is_not x) s) as (w & rest & -> & Hw & Hr).
  destruct Hr as [->|(c & rest' & -> & Hc)].
  - left. now rewrite sapp_nil_r.
  - right. exists w, rest'. split; [|exact Hw].
    unfold is_not in Hc. destruct (Ascii.eqb_spec c x) as [->|]; [reflexivity|discriminate].
Qed.

Lemma tag_match_none (s : string) :
  match_at tagRegex (String "<" s) = None -> char_free ">" s.
Proof.
  intros H. destruct (first_occurrence ">" s) as [F|(w & rest & -> & Hw)]; [exact F|].
  pose proof (tag_match_complete w rest Hw) as M.
  simpl in M. simpl in H. rewrite M in H. discriminate.
Qed.

Lemma tag_match_head (c : ascii) (s : string) :
  Ascii.eqb "<" c = false -> match_at tagRegex (String c s) = None.
Proof.
  intros H. unfold match_at, tagRegex. cbn [run].
  rewrite strip_prefix_char, H. reflexivity.
Qed.

Lemma tag_free_nil : tag_free "".
Proof. intros [|x a] b c H; discriminate H. Qed.

Lemma tag_free_cons (c : ascii) (s : string) :
  tag_free s -> (c = "<"%char -> char_free ">" s) -> tag_free (String c s).
Proof.
  intros T G [|x a] b d H; simpl in H.
  - inversion H; subst. specialize (G eq_refl).
    apply char_free_app in G. destruct G as [_ G].
    apply char_free_cons in G. destruct G as [G _]. discriminate G.
  - inversion H; subst. exact (T a b d eq_refl).
Qed.

Lemma replace_all_fuel_tag_free (n : nat) (s : string) :
  (String.length s < n)%nat -> tag_free (replace_all_fuel n tagRegex "" s).
Proof.
  revert s; induction n as [|n IH]; intros s L; [lia|].
  cbn [replace_all_fuel].
  destruct (match_at tagRegex s) as [[whole caps]|] eqn:M.
  - destruct (tag_match_sound _ _ _ M) as (w & rest & -> & ->).
    change ("<" ++ w ++ ">") with (String "<" (w ++ ">")).
    cbv iota. cbn [append].
    change (String "<" ((w ++ ">") ++ rest)) with (String "<" (w ++ ">") ++ rest).
    rewrite (drop_app (String "<" (w ++ ">")) rest).
    apply IH. rewrite slength_app in L. simpl in L. simpl. lia.
  - destruct s as [|c s]; [apply tag_free_nil|].
    apply tag_free_cons.
    + apply IH. simpl in L. lia.
    + intros ->. apply replace_all_fuel_char_free. now apply tag_match_none.
Qed.

Lemma replace_all_fuel_id (n : nat) (s : string) :
  char_free "<" s -> replace_all_fuel n tagRegex "" s = s.
Proof.
  revert s; induction n as [|n IH]; intros s H; [reflexivity|].
  cbn [replace_all_fuel]. destruct s as [|c s].
  - reflexivity.
  - apply char_free_cons in H. destruct H as [Hc Hs].
    rewrite (tag_match_head c s Hc). now rewrite (IH s Hs).
Qed.

(** What the user is shown of an error has no tag left in it: after the
    fixed text of the category comes the error text with every stretch from
    a ["<"] to the next [">"] deleted, so that no ["<"] of it has a [">"]
    anywhere after it.  An error text without ["<"] is shown as it is. *)
Theorem fullErrorMessage_has_no_tag (c : errorCategory) (e : error) :
  exists log,
    fullErrorMessage c e = errorMessages c ++ nl ++ "Error log: " ++ log
    /\ tag_free log
    /\ (forall x, char_free x (error_to_string e) -> char_free x log)
    /\ (char_free "<" (error_to_string e) -> log = error_to_string e).
Proof.
  exists (replace_all tagRegex "" (error_to_string e)).
  split; [reflexivity|]. unfold replace_all. split; [|split].
  - apply replace_all_fuel_tag_free. lia.
  - intros x. apply replace_all_fuel_char_free.
  - apply replace_all_fuel_id.
Qed.

End Sanitize.

(** ** From the written description to the delivered message *)

Section DescriptionRoundTrip.
Import CallbackQueryHandler.

Ltac ascii_cases c := destruct c as [[|] [|] [|] [|] [|] [|] [|] [|]].

Lemma duration_char_plain (c : ascii) :
  duration_char c = true ->
  dot c = true /\ is_not "]" c = true /\ is_not "010" c = true.
Proof. ascii_cases c; vm_compute; intros H; try discriminate H; repeat split. Qed.

Lemma digit_is_duration_char (c : ascii) :
  is_digit c = true -> duration_char c = true.
Proof. unfold duration_char. now intros ->. Qed.

Lemma num_to_string_duration_chars (n : Z) :
  all_chars duration_char (num_to_string n) = true.
Proof.
  assert (D : forall d, all_chars duration_char (NilEmpty.string_of_uint d) = true).
  { intros d. apply (all_chars_impl is_digit); [apply digit_is_duration_char|].
    apply string_of_uint_digits. }
  destruct n as [|p|p].
  - reflexivity.
  - rewrite num_to_string_pos. apply D.
  - rewrite num_to_string_neg. simpl. apply D.
Qed.

Lemma getDurationString_chars (t : Z) :
  all_chars duration_char (getDurationString t) = true.
Proof.
  unfold getDurationString. destruct (0 <? t / 3600);
    rewrite ?all_chars_app, ?num_to_string_duration_chars; reflexivity.
Qed.

Lemma dot_line (s : string) : all_chars dot s = true -> char_free "010" s.
Proof.
  apply all_chars_impl. intros c. ascii_cases c; vm_compute; congruence.
Qed.

(** The tags of a description whose first two lines have the shapes that
    [generateDescription] writes. *)
Lemma audioTags_of_shapes (vid : option string) (line0 d t line1 a x rest : string) :
  title_shape line0 d t -> author_shape line1 a x ->
  char_free "010" line0 -> char_free "010" line1 -> at_line_end rest ->
  audioTags vid (line0 ++ nl ++ line1 ++ rest)
  = Normal (match t with "" => vid | _ => Some t end,
            match replace_first " - Topic" "" a with
            | "" => Some "Unknown Artist"
            | a' => Some a'
            end).
Proof.
  intros Ht Ha H0 H1 Hrest.
  destruct (split_two_lines _ _ _ H0 H1 Hrest) as (more & Hsplit).
  unfold audioTags. rewrite Hsplit. unfold line_match. cbn [nth_error bind].
  rewrite (title_match _ _ _ Ht).
  destruct (author_match _ _ _ Ha) as (whole & ->).
  cbn [capture1 option_map]. unfold js_or. cbn [truthy_str].
  destruct t; destruct (replace_first " - Topic" "" a); reflexivity.
Qed.

Lemma generateDescription_lines (info : VideoInfo) :
  plain_title (info_title info) -> plain_uploader (info_uploader info) ->
  let line0 := "<b>[" ++ getDurationString (info_duration info) ++ "]</b> "
               ++ info_title info in
  let line1 := "By <b>" ++ info_uploader info ++ "</b>" in
  generateDescription info = line0 ++ nl ++ line1
  /\ title_shape line0 (getDurationString (info_duration info)) (info_title info)
  /\ author_shape line1 (info_uploader info) ""
  /\ char_free "010" line0 /\ char_free "010" line1.
Proof.
  intros (Hne & Hdot & Hsp) (Hudot & Hlt) line0 line1.
  pose proof (getDurationString_chars (info_duration info)) as Hd.
  assert (Hd1 : all_chars dot (getDurationString (info_duration info)) = true).
  { revert Hd. apply all_chars_impl. intros c Hc. now apply duration_char_plain. }
  assert (Hd2 : char_free "]" (getDurationString (info_duration info))).
  { revert Hd. apply all_chars_impl. intros c Hc. now apply duration_char_plain. }
  split; [|split; [|split; [|split]]].
  - unfold generateDescription, line0, line1. now rewrite !sapp_assoc.
  - unfold title_shape. repeat split; assumption.
  - unfold author_shape, line1. repeat split; assumption.
  - apply dot_line. unfold line0.
    rewrite !all_chars_app, Hd1, Hdot. reflexivity.
  - apply dot_line. unfold line1.
    rewrite !all_chars_app, Hudot. reflexivity.
Qed.

Lemma audioTags_of_generateDescription (vid : option string) (info : VideoInfo) (url : string) :
  plain_title (info_title info) ->
  plain_uploader (info_uploader info) ->
  audioTags vid (generateDescription info ++ nl ++ url)
  = Normal (Some (info_title info),
            match replace_first " - Topic" "" (info_uploader info) with
            | "" => Some "Unknown Artist"
            | a' => Some a'
            end).
Proof.
  intros Ht Hu.
  destruct (generateDescription_lines info Ht Hu) as (E & S0 & S1 & F0 & F1).
  rewrite E.
  set (line0 := "<b>[" ++ getDurationString (info_duration info) ++ "]</b> "
                ++ info_title info) in *.
  set (line1 := "By <b>" ++ info_uploader info ++ "</b>") in *.
  replace ((line0 ++ nl ++ line1) ++ nl ++ url)
    with (line0 ++ nl ++ line1 ++ (nl ++ url)) by (now rewrite !sapp_assoc).
  rewrite (audioTags_of_shapes vid _ _ _ _ _ _ _ S0 S1 F0 F1).
  - destruct Ht as (Hne & _). now destruct (info_title info).
  - right. now exists url.
Qed.

(** What [processVideoInfo] writes, [audioTags] reads back: the title is
    the video's title and the performer its uploader without the first
    [" - Topic"], for a title and an uploader that fit on their lines. *)
Theorem description_roundtrip (vid : option string) (info : VideoInfo) (url : string) :
  plain_title (info_title info) ->
  plain_uploader (info_uploader info) ->
  audioTags vid (generateDescription info ++ nl ++ url)
  = Normal (Some (info_title info),
            match replace_first " - Topic" "" (info_uploader info) with
            | "" => Some "Unknown Artist"
            | a' => Some a'
            end).
Proof. exact (audioTags_of_generateDescription vid info url). Qed.

End DescriptionRoundTrip.

Section EndToEnd.
Import CallbackQueryHandler.


Lemma send_video_result (h : t) (w : world) :
  isAudio h = false ->
  fst (send h w)
  = Normal (ReplyWithVideo (storedFilePath h) (thumbFilePath h)
              (parseInt_opt (height h)) (parseInt_opt (width h))
              (parseInt_opt (duration h))
              match obj_get (files w) (descrFilePath h) with
              | Some descr => descr
              | None => ""
              end)
  /\ files (snd (send h w)) = files w.
Proof.
  intros Hv.
  unfold send, bindM, try_catch, readFileSync, emit, ret; simpl.
  destruct (obj_get (files w) (descrFilePath h)); simpl; rewrite Hv; simpl;
    split; reflexivity.
Qed.

(** A video is sent whatever the state of the description file: the
    caption is the description when it can be read and empty when not.
    [send] only reads: it leaves every file as it was. *)
Theorem send_video_tolerates_missing_description (h : t) (w : world) :
  isAudio h = false ->
  fst (send h w)
  = Normal (ReplyWithVideo (storedFilePath h) (thumbFilePath h)
              (parseInt_opt (height h)) (parseInt_opt (width h))
              (parseInt_opt (duration h))
              match obj_get (files w) (descrFilePath h) with
              | Some descr => descr
              | None => ""
              end)
  /\ files (snd (send h w)) = files w.
Proof. exact (send_video_result h w). Qed.





End EndToEnd.

(** ** More on cleanup *)

Section ObjectRemove.
Context {V : Type}.

Lemma obj_get_remove_ne (o : object V) (k k' : string) :
  k <> k' -> obj_get (obj_remove o k) k' = obj_get o k'.
Proof.
  intros N. induction o as [|[k0 v0] o IH]; simpl; [reflexivity|].
  destruct (String.eqb_spec k0 k) as [->|]; simpl.
  - destruct (String.eqb_spec k k'); [congruence | reflexivity].
  - now rewrite IH.
Qed.

Lemma obj_get_None_keys (o : object V) (k : string) :
  obj_get o k = None <-> ~ In k (obj_keys o).
Proof.
  rewrite obj_get_keys. destruct (obj_get o k) as [v|].
  - split; [discriminate|]. intros H. exfalso. apply H. now exists v.
  - split; [|reflexivity]. intros _ [v H]. discriminate.
Qed.

Lemma obj_get_remove_eq (o : object V) (k : string) :
  NoDup (obj_keys o) -> obj_get (obj_remove o k) k = None.
Proof.
  induction o as [|[k0 v0] o IH]; simpl; intros N; [reflexivity|].
  inversion N as [|? ? Hnot N']; subst.
  destruct (String.eqb_spec k0 k) as [->|Hne]; simpl.
  - now apply obj_get_None_keys.
  - destruct (String.eqb_spec k0 k); [congruence|]. now apply IH.
Qed.

Lemma obj_keys_remove_incl (o : object V) (k k' : string) :
  In k' (obj_keys (obj_remove o k)) -> In k' (obj_keys o).
Proof.
  induction o as [|[k0 v0] o IH]; simpl; [tauto|].
  destruct (String.eqb_spec k0 k); simpl; [now right|].
  intros [->|H]; [now left | right; now apply IH].
Qed.

Lemma obj_keys_remove_NoDup (o : object V) (k : string) :
  NoDup (obj_keys o) -> NoDup (obj_keys (obj_remove o k)).
Proof.
  induction o as [|[k0 v0] o IH]; simpl; intros N; [constructor|].
  inversion N as [|? ? Hnot N']; subst.
  destruct (String.eqb_spec k0 k); simpl; [exact N'|].
  constructor; [|now apply IH].
  intros H. apply Hnot. now apply (obj_keys_remove_incl o k).
Qed.

Lemma obj_get_remove_None (o : object V) (k k' : string) :
  obj_get o k' = None -> obj_get (obj_remove o k) k' = None.
Proof.
  rewrite !obj_get_None_keys. intros H G. apply H.
  now apply (obj_keys_remove_incl o k).
Qed.

End ObjectRemove.

Section CleanupTwice.
Import CallbackQueryHandler.

(** The files that [cleanUpFiles] leaves, deletion by deletion. *)
Lemma cleanUpFiles_files (h : t) (w : world) :
  files (snd (cleanUpFiles h w))
  = match obj_get (files w) (storedFilePath h) with
    | None => files w
    | Some _ =>
        let f1 := obj_remove (files w) (storedFilePath h) in
        match obj_get f1 (thumbFilePath h) with
        | None => f1
        | Some _ =>
            let f2 := obj_remove f1 (thumbFilePath h) in
            match obj_get f2 (descrFilePath h) with
            | None => f2
            | Some _ => obj_remove f2 (descrFilePath h)
            end
        end
    end.
Proof.
  unfold cleanUpFiles, bindM, try_catch, emit, unlinkSync; simpl.
  repeat match goal with
         | |- context [obj_get ?o ?p] => destruct (obj_get o p); simpl
         end; reflexivity.
Qed.

Lemma cleanUpFiles_result (h : t) (w : world) : fst (cleanUpFiles h w) = Normal tt.
Proof.
  unfold cleanUpFiles, bindM, try_catch, emit, unlinkSync; simpl.
  repeat match goal with
         | |- context [obj_get ?o ?p] => destruct (obj_get o p); simpl
         end; reflexivity.
Qed.

(** Cleanup a second time: whatever the first run met, the second run
    neither raises nor changes a file, and no run ever adds a path.  (The
    paths of a directory are distinct.) *)
Theorem cleanUpFiles_idempotent (h : t) (w : world) :
  NoDup (obj_keys (files w)) ->
  let w1 := snd (cleanUpFiles h w) in
  fst (cleanUpFiles h w1) = Normal tt
  /\ files (snd (cleanUpFiles h w1)) = files w1
  /\ (forall p, In p (obj_keys (files w1)) -> In p (obj_keys (files w))).
Proof.
  intros N w1.
  assert (Hmiss : obj_get (files w1) (storedFilePath h) = None).
  { subst w1. rewrite cleanUpFiles_files.
    destruct (obj_get (files w) (storedFilePath h)) eqn:G; [|exact G].
    pose proof (obj_get_remove_eq (files w) (storedFilePath h) N) as R.
    cbv zeta.
    repeat match goal with
           | |- context [match obj_get ?o ?p with _ => _ end] => destruct (obj_get o p)
           end;
      first [ exact R
            | apply obj_get_remove_None; exact R
            | do 2 apply obj_get_remove_None; exact R ]. }
  split; [apply cleanUpFiles_result|]. split.
  - rewrite cleanUpFiles_files, Hmiss. reflexivity.
  - intros p. subst w1. rewrite cleanUpFiles_files. cbv zeta.
    repeat match goal with
           | |- context [match obj_get ?o ?p with _ => _ end] => destruct (obj_get o p)
           end; intros H; repeat (apply obj_keys_remove_incl in H); exact H.
Qed.

Lemma sapp_inv_head (a x y : string) : a ++ x = a ++ y -> x = y.
Proof. induction a as [|c a IH]; simpl; intros H; [exact H|]. inversion H. auto. Qed.

Lemma sapp_neq_self (a x : string) : x <> "" -> a ++ x <> a.
Proof.
  intros N H. apply N. apply (sapp_inv_head a). now rewrite sapp_nil_r.
Qed.

(** The three artifact paths of a session are three different paths,
    whatever the payload. *)
Lemma session_paths_distinct (cwd : string) (m ch : Z) (data : string) :
  let c := new cwd m ch data in
  storedFilePath c <> thumbFilePath c
  /\ storedFilePath c <> descrFilePath c
  /\ thumbFilePath c <> descrFilePath c.
Proof.
  unfold new. cbn [storedFilePath thumbFilePath descrFilePath].
  set (vid := tpl (nth_error (split "|" data) 0)).
  unfold path_join.
  destruct (negb _ && negb _)%bool; repeat split; intros H;
    rewrite ?sapp_assoc in H;
    repeat (apply sapp_inv_head in H); discriminate H.
Qed.

(** With the media file, the thumbnail and the description all on disk,
    cleanup calls [unlinkSync] on the three, in that order, and afterwards
    the three are gone and every other file is as it was. *)
Theorem cleanUpFiles_removes_the_three
    (cwd : string) (m ch : Z) (data : string) (w : world) :
  let c := new cwd m ch data in
  NoDup (obj_keys (files w)) ->
  obj_get (files w) (storedFilePath c) <> None ->
  obj_get (files w) (thumbFilePath c) <> None ->
  obj_get (files w) (descrFilePath c) <> None ->
  let w' := snd (cleanUpFiles c w) in
  unlink_calls (trace w')
  = (unlink_calls (trace w)
     ++ [storedFilePath c; thumbFilePath c; descrFilePath c])%list
  /\ obj_get (files w') (storedFilePath c) = None
  /\ obj_get (files w') (thumbFilePath c) = None
  /\ obj_get (files w') (descrFilePath c) = None
  /\ (forall p, p <> storedFilePath c -> p <> thumbFilePath c ->
                p <> descrFilePath c ->
                obj_get (files w') p = obj_get (files w) p).
Proof.
  intros c N Hs Ht Hd w'.
  destruct (session_paths_distinct cwd m ch data) as (D1 & D2 & D3).
  fold c in D1, D2, D3. clearbody c.
  set (f1 := obj_remove (files w) (storedFilePath c)).
  set (f2 := obj_remove f1 (thumbFilePath c)).
  assert (G1 : obj_get f1 (thumbFilePath c) <> None).
  { unfold f1. now rewrite obj_get_remove_ne. }
  assert (G2 : obj_get f2 (descrFilePath c) <> None).
  { unfold f2, f1. rewrite !obj_get_remove_ne; auto. }
  assert (F : files w' = obj_remove f2 (descrFilePath c)).
  { subst w'. rewrite cleanUpFiles_files. cbv zeta. fold f1. fold f2.
    destruct (obj_get (files w) (storedFilePath c)); [|congruence].
    destruct (obj_get f1 (thumbFilePath c)); [|congruence].
    destruct (obj_get f2 (descrFilePath c)); [reflexivity|congruence]. }
  assert (N1 : NoDup (obj_keys f1)) by (now apply obj_keys_remove_NoDup).
  assert (N2 : NoDup (obj_keys f2)) by (now apply obj_keys_remove_NoDup).
  split; [|split; [|split; [|split]]].
  - subst w'. unfold cleanUpFiles, bindM, try_catch, emit, unlinkSync; simpl.
    fold f1.
    destruct (obj_get (files w) (storedFilePath c)); [|congruence]. simpl.
    fold f1.
    destruct (obj_get f1 (thumbFilePath c)); [|congruence]. simpl.
    fold f2.
    destruct (obj_get f2 (descrFilePath c)); [|congruence]. simpl.
    rewrite !unlink_calls_app. simpl. rewrite !app_nil_r, <- !app_assoc.
    reflexivity.
  - rewrite F. do 2 apply obj_get_remove_None. now apply obj_get_remove_eq.
  - rewrite F. apply obj_get_remove_None. now apply obj_get_remove_eq.
  - rewrite F. now apply obj_get_remove_eq.
  - intros p P1 P2 P3. rewrite F. unfold f2, f1.
    rewrite !obj_get_remove_ne; auto.
Qed.

End CleanupTwice.

(** ** The constructors of the message handlers *)

Lemma wellformed_no_space (u : string) :
  WellFormedURL u -> all_chars non_space u = true.
Proof.
  intros (scheme & sub & host & id & tail & -> & Hs & Hsub & Hh & Hl & Hid & Ht).
  assert (I : all_chars non_space id = true).
  { revert Hid. apply all_chars_impl. intros c.
    destruct c as [[|] [|] [|] [|] [|] [|] [|] [|]]; vm_compute; congruence. }
  rewrite !all_chars_app, I, Ht.
  destruct Hs as [-> | ->]; destruct Hsub as [-> | [-> | ->]];
    destruct Hh as [-> | [-> | ->]]; reflexivity.
Qed.

(** The handler of a message is valid exactly when the text holds a
    well-formed URL; its [url] is then such a URL taken from the text, with
    no white space in it, and no reply is sent.  Otherwise the text holds no
    well-formed URL, the [url] stays empty, and the one reply sent is the
    guidance text. *)
Theorem URLMessageHandler_new_valid_iff_url (message_id : Z) (text : string) :
  let h := fst (URLMessageHandler.new message_id text) in
  let reply := snd (URLMessageHandler.new message_id text) in
  URLMessageHandler.user_msg_id h = message_id
  /\ ((URLMessageHandler.valid h = true /\ reply = None
       /\ WellFormedURL (URLMessageHandler.url h)
       /\ occurs_in (URLMessageHandler.url h) text
       /\ all_chars non_space (URLMessageHandler.url h) = true)
      \/ (URLMessageHandler.valid h = false /\ reply = Some noURLReply
          /\ URLMessageHandler.url h = "" /\ contains_no_url text)).
Proof.
  unfold URLMessageHandler.new.
  destruct (extractYoutubeURL text) as [u|] eqn:E; simpl.
  - split; [reflexivity|]. left.
    unfold extractYoutubeURL in E.
    destruct (search youtubeRegex text) as [[whole caps]|] eqn:S; [|discriminate].
    inversion E; subst whole.
    destruct (search_sound _ _ _ S) as (p1 & p2 & -> & M).
    destruct (match_at_youtube_sound _ _ _ M) as (rest & -> & W).
    split; [reflexivity|]. split; [reflexivity|]. split; [exact W|].
    split; [now exists p1, rest | now apply wellformed_no_space].
  - split; [reflexivity|]. right. repeat split.
    now apply contains_no_url_dec.
Qed.

Section FormatCommand.

Lemma find_sub_absent (pat s : string) :
  ~ occurs_in pat s -> find_sub pat s = None.
Proof.
  intros H. destruct (find_sub pat s) as [[a b]|] eqn:F; [|reflexivity].
  exfalso. apply H. exists a, b. now apply find_sub_Some.
Qed.

Lemma split_absent (sep s : string) : ~ occurs_in sep s -> split sep s = [s].
Proof.
  intros H. unfold split. destruct (String.length s); [reflexivity|].
  cbn [split_fuel]. now rewrite (find_sub_absent _ _ H).
Qed.

(** The constructor of the [/format] handler throws on every text in
    which ["/format "], the command with a blank after it, does not occur:
    the bare command, the command followed by a line break, the command
    with the bot's name attached.  On the command, a blank and an argument
    it is valid exactly when the extractor finds a URL in the argument. *)
Theorem FormatCommandHandler_new_needs_blank :
  (forall text,
      ~ occurs_in "/format " text ->
      FormatCommandHandler.new text
      = Throw (TypeError "Cannot read properties of undefined (reading 'match')"))
  /\ (forall arg,
        ~ occurs_in "/format " arg ->
        FormatCommandHandler.new ("/format " ++ arg)
        = Normal
            match extractYoutubeURL arg with
            | Some u => ({| FormatCommandHandler.valid := true;
                            FormatCommandHandler.url := u |}, None)
            | None => ({| FormatCommandHandler.valid := false;
                          FormatCommandHandler.url := "" |}, Some noURLReply)
            end).
Proof.
  split.
  - intros text H. unfold FormatCommandHandler.new.
    now rewrite (split_absent _ _ H).
  - intros arg H. unfold FormatCommandHandler.new.
    assert (S : split "/format " ("/format " ++ arg) = [""; arg]).
    { unfold split.
      change (String.length ("/format " ++ arg)) with (S (String.length ("format " ++ arg))).
      cbn [split_fuel].
      change (find_sub "/format " ("/format " ++ arg))
        with (match strip_prefix "/format " ("/format " ++ arg) with
              | Some rest => Some ("", rest)
              | None => match find_sub "/format " ("format " ++ arg) with
                        | Some (before, after) => Some (String "/" before, after)
                        | None => None
                        end
              end).
      rewrite strip_prefix_app.
      destruct (String.length ("format " ++ arg)); [reflexivity|].
      cbn [split_fuel]. now rewrite (find_sub_absent _ _ H). }
    rewrite S. cbn [nth_error].
    destruct (extractYoutubeURL arg); reflexivity.
Qed.

Lemma FormatCommandHandler_new_needs_blank_witness :
  ~ occurs_in "/format " "/format@tvnn_bot https://youtu.be/dQw4w9WgXcQ"
  /\ FormatCommandHandler.new "/format@tvnn_bot https://youtu.be/dQw4w9WgXcQ"
     = Throw (TypeError "Cannot read properties of undefined (reading 'match')")
  /\ ~ occurs_in "/format " "see https://youtu.be/dQw4w9WgXcQ"
  /\ FormatCommandHandler.new ("/format " ++ "see https://youtu.be/dQw4w9WgXcQ")
     = Normal ({| FormatCommandHandler.valid := true;
                  FormatCommandHandler.url := "https://youtu.be/dQw4w9WgXcQ" |}, None).
Proof.
  assert (H1 : ~ occurs_in "/format " "/format@tvnn_bot https://youtu.be/dQw4w9WgXcQ")
    by (apply not_occurs_in_dec; reflexivity).
  assert (H2 : ~ occurs_in "/format " "see https://youtu.be/dQw4w9WgXcQ")
    by (apply not_occurs_in_dec; reflexivity).
  split; [exact H1|]. split.
  - exact (proj1 FormatCommandHandler_new_needs_blank _ H1).
  - split; [exact H2|].
    exact (proj2 FormatCommandHandler_new_needs_blank _ H2).
Defined.

End FormatCommand.

(** A payload without a ["|"]: the whole of it is the video id, every
    other field is [undefined], the message id is [NaN], and the session
    is an audio session. *)
Theorem payload_without_separator (cwd : string) (m ch : Z) (data : string) :
  ~ occurs_in "|" data ->
  CallbackQueryHandler.new cwd m ch data
  = {| CallbackQueryHandler.inline_msg_id := m;
       CallbackQueryHandler.chat_id := ch;
       CallbackQueryHandler.original_user_msg_id := None;
       CallbackQueryHandler.video_id := Some data;
       CallbackQueryHandler.url := "https://youtube.com/watch?v=" ++ data;
       CallbackQueryHandler.format := None;
       CallbackQueryHandler.duration := None;
       CallbackQueryHandler.height := None;
       CallbackQueryHandler.width := None;
       CallbackQueryHandler.isAudio := true;
       CallbackQueryHandler.storedFileName := data ++ ".m4a";
       CallbackQueryHandler.storedFilePath := path_join cwd (data ++ ".m4a");
       CallbackQueryHandler.thumbFilePath := path_join cwd (data ++ ".m4a") ++ ".jpg";
       CallbackQueryHandler.descrFilePath := path_join cwd (data ++ "-descr.txt") |}.
Proof.
  intros H. unfold CallbackQueryHandler.new.
  now rewrite (split_absent _ _ H).
Qed.

Lemma payload_without_separator_witness :
  ~ occurs_in "|" "dQw4w9WgXcQ"
  /\ CallbackQueryHandler.isAudio (CallbackQueryHandler.new "/app" 7 8 "dQw4w9WgXcQ") = true
  /\ CallbackQueryHandler.format (CallbackQueryHandler.new "/app" 7 8 "dQw4w9WgXcQ") = None.
Proof.
  assert (H : ~ occurs_in "|" "dQw4w9WgXcQ") by (apply not_occurs_in_dec; reflexivity).
  split; [exact H|].
  rewrite (payload_without_separator "/app" 7 8 "dQw4w9WgXcQ" H).
  split; reflexivity.
Defined.

(** ** Arguments of the extraction tool *)

Section Args.

Lemma spread_get {V} (from into : object V) (k : string) :
  NoDup (obj_keys from) ->
  obj_get (spread into from) k =
    match obj_get from k with
    | Some v => Some v
    | None => obj_get into k
    end.
Proof.
  unfold spread. revert into.
  induction from as [|[k0 v0] from IH]; intros into N; simpl; [reflexivity|].
  inversion N as [|? ? Hnot N']; subst.
  rewrite (IH _ N'). rewrite obj_get_set.
  destruct (String.eqb_spec k0 k) as [->|].
  - destruct (obj_get from k) eqn:G; [|reflexivity].
    exfalso. apply Hnot. apply obj_get_keys. eauto.
  - reflexivity.
Qed.

Lemma spread_keys_NoDup {V} (from into : object V) :
  NoDup (obj_keys into) -> NoDup (obj_keys (spread into from)).
Proof.
  unfold spread. revert into.
  induction from as [|[k0 v0] from IH]; intros into N; simpl; [exact N|].
  apply IH. now apply obj_keys_set_NoDup.
Qed.

(** A property that the caller gives wins over the one [ytdlpArgs] would
    put; the cookie file and the extractor argument are there whenever the
    caller gives none of that name; nothing else is added. *)
Theorem ytdlpArgs_caller_overrides (root : string) (args : ArgsOptions) (k : string) :
  NoDup (obj_keys args) ->
  obj_get (ytdlpArgs root args) k =
    match obj_get args k with
    | Some v => Some v
    | None =>
        if String.eqb k "extractorArgs"
        then Some (ArgExtractor [("youtubepot-bgutilhttp", ["base_url=" ++ root])])
        else if String.eqb k "cookies" then Some (ArgString "cookies.txt")
        else None
    end.
Proof.
  intros N. unfold ytdlpArgs. rewrite (spread_get _ _ _ N).
  destruct (obj_get args k); [reflexivity|].
  unfold baseArgs. cbn [obj_get].
  rewrite (String.eqb_sym "extractorArgs" k), (String.eqb_sym "cookies" k).
  reflexivity.
Qed.

Lemma ytdlpArgs_caller_overrides_witness :
  NoDup (obj_keys [("cookies", ArgString "other.txt"); ("quiet", ArgBool true)])
  /\ obj_get (ytdlpArgs "http://bgutil:4416"
               [("cookies", ArgString "other.txt"); ("quiet", ArgBool true)])
       "cookies"
     = Some (ArgString "other.txt").
Proof.
  assert (N : NoDup (obj_keys [("cookies", ArgString "other.txt"); ("quiet", ArgBool true)])).
  { repeat constructor; simpl; intuition discriminate. }
  split; [exact N|].
  exact (ytdlpArgs_caller_overrides "http://bgutil:4416" _ "cookies" N).
Defined.

End Args.

(** ** Sample data *)

(** A video with two video formats, the taller one first, and one audio
    track. *)
Definition sample_info : VideoInfo :=
  {| info_id := "dQw4w9WgXcQ";
     info_title := "Title";
     info_uploader := "Artist - Topic";
     info_duration := 212;
     info_formats :=
       [ {| format_id := "137"; vcodec := Some "avc1.640028"; acodec := Some "none";
            filesize := Some 52428800; height := Some 1080; width := Some 1920 |};
         {| format_id := "134"; vcodec := Some "avc1.4d401e"; acodec := Some "none";
            filesize := Some 8388608; height := Some 360; width := Some 640 |};
         {| format_id := "140"; vcodec := Some "none"; acodec := Some "mp4a.40.2";
            filesize := Some 3145728; height := None; width := None |} ] |}.

Definition sample_handler : URLMessageHandler.t :=
  fst (URLMessageHandler.new 55 "see https://youtu.be/dQw4w9WgXcQ").

Definition empty_world : world :=
  {| files := []; trace := []; write_error := accepts_writes |}.

Definition sample_audio : FormatEntry :=
  {| format_id := "140"; vcodec := Some "none"; acodec := Some "mp4a.40.2";
     filesize := Some 3145728; height := None; width := None |}.

Lemma menu_rows_follow_tier_order_witness :
  URLMessageHandler.find_largest_audio (info_formats sample_info) = Some sample_audio
  /\ exists tiers,
       fst (URLMessageHandler.handle "/app" sample_handler (Normal sample_info) empty_world)
       = Normal (URLMessageHandler.SelectOption
           ([URLMessageHandler.music_button sample_handler sample_info
               (URLMessageHandler.size_of sample_audio)]
            :: map (fun e => [URLMessageHandler.tier_button sample_handler sample_info
                                (info_id sample_info)
                                (URLMessageHandler.size_of sample_audio) e]) tiers))
       /\ Permutation tiers (URLMessageHandler.tier_ladder (info_formats sample_info))
       /\ StronglySorted (fun e1 e2 => tier_index e1 < tier_index e2) tiers.
Proof.
  split; [reflexivity|].
  apply (menu_rows_follow_tier_order "/app" sample_handler sample_info empty_world
           sample_audio).
  reflexivity.
Defined.

Lemma plain_title_sample : plain_title (info_title sample_info).
Proof. split; [discriminate | split; reflexivity]. Qed.

Lemma plain_uploader_sample : plain_uploader (info_uploader sample_info).
Proof. split; reflexivity. Qed.

Lemma description_roundtrip_witness :
  plain_title (info_title sample_info)
  /\ plain_uploader (info_uploader sample_info)
  /\ CallbackQueryHandler.audioTags (Some "dQw4w9WgXcQ")
       (generateDescription sample_info ++ nl ++ "https://youtu.be/dQw4w9WgXcQ")
     = Normal (Some "Title", Some "Artist").
Proof.
  split; [exact plain_title_sample|]. split; [exact plain_uploader_sample|].
  exact (description_roundtrip (Some "dQw4w9WgXcQ") sample_info
           "https://youtu.be/dQw4w9WgXcQ" plain_title_sample plain_uploader_sample).
Defined.




Definition sample_video_session : CallbackQueryHandler.t :=
  CallbackQueryHandler.new "/app" 7 8 "dQw4w9WgXcQ|137+ba|212|1080|1920|55".

Lemma send_video_tolerates_missing_description_witness :
  CallbackQueryHandler.isAudio sample_video_session = false
  /\ fst (CallbackQueryHandler.send sample_video_session empty_world)
     = Normal (CallbackQueryHandler.ReplyWithVideo
                 "/app/dQw4w9WgXcQ.mp4" "/app/dQw4w9WgXcQ.jpg"
                 (Some 1080) (Some 1920) (Some 212) "")
  /\ files (snd (CallbackQueryHandler.send sample_video_session empty_world))
     = files empty_world.
Proof.
  split; [reflexivity|].
  exact (send_video_tolerates_missing_description sample_video_session empty_world
           eq_refl).
Defined.

(** The three artifacts of the session and a file of another video. *)
Definition full_world : world :=
  {| files := [("/app/dQw4w9WgXcQ.mp4", "mp4");
               ("/app/dQw4w9WgXcQ.jpg", "jpg");
               ("/app/dQw4w9WgXcQ-descr.txt", "<b>[3m 32s]</b> Title");
               ("/app/other-descr.txt", "other")];
     trace := []; write_error := accepts_writes |}.

Lemma full_world_NoDup : NoDup (obj_keys (files full_world)).
Proof. repeat constructor; simpl; intuition discriminate. Qed.

Lemma cleanUpFiles_idempotent_witness :
  NoDup (obj_keys (files full_world))
  /\ fst (CallbackQueryHandler.cleanUpFiles sample_video_session
            (snd (CallbackQueryHandler.cleanUpFiles sample_video_session full_world)))
     = Normal tt
  /\ files (snd (CallbackQueryHandler.cleanUpFiles sample_video_session
                   (snd (CallbackQueryHandler.cleanUpFiles sample_video_session
                           full_world))))
     = files (snd (CallbackQueryHandler.cleanUpFiles sample_video_session full_world))
  /\ (forall p,
        In p (obj_keys (files (snd (CallbackQueryHandler.cleanUpFiles
                                      sample_video_session full_world)))) ->
        In p (obj_keys (files full_world))).
Proof.
  split; [exact full_world_NoDup|].
  exact (cleanUpFiles_idempotent sample_video_session full_world full_world_NoDup).
Defined.

Lemma cleanUpFiles_removes_the_three_witness :
  obj_keys (files (snd (CallbackQueryHandler.cleanUpFiles sample_video_session
                          full_world)))
  = ["/app/other-descr.txt"]
  /\ unlink_calls (trace (snd (CallbackQueryHandler.cleanUpFiles sample_video_session
                                 full_world)))
     = ["/app/dQw4w9WgXcQ.mp4"; "/app/dQw4w9WgXcQ.jpg"; "/app/dQw4w9WgXcQ-descr.txt"].
Proof.
  split; [reflexivity|].
  exact (proj1 (cleanUpFiles_removes_the_three "/app" 7 8
                  "dQw4w9WgXcQ|137+ba|212|1080|1920|55" full_world
                  full_world_NoDup
                  ltac:(discriminate) ltac:(discriminate) ltac:(discriminate))).
Defined.

(** ** The download handler, from the selection to the end *)

Section Handle.
Import CallbackQueryHandler.

Lemma cleanUpFiles_attempts_media (h : t) (w : world) :
  In (UnlinkCall (storedFilePath h)) (trace (snd (cleanUpFiles h w))).
Proof.
  unfold cleanUpFiles, bindM, try_catch, emit, unlinkSync; simpl.
  repeat match goal with
         | |- context [obj_get ?o ?p] => destruct (obj_get o p); simpl
         end;
    repeat (rewrite in_app_iff; simpl); tauto.
Qed.

Lemma send_reads_files_only (h : t) (w1 w2 : world) :
  files w1 = files w2 -> fst (send h w1) = fst (send h w2).
Proof.
  intros E.
  unfold send, bindM, try_catch, readFileSync, emit, ret; simpl.
  rewrite E.
  destruct (obj_get (files w2) (descrFilePath h)); simpl;
    destruct (isAudio h); simpl; try reflexivity.
  destruct (audioTags (video_id h) s); reflexivity.
Qed.

(** Every run of [handle] ends without an exception and has passed the
    media file to [unlinkSync]: cleanup is on every path.  What the chat
    sees follows the first step that fails, and shows the error of that
    step.  A failed download: the status message reads ["Downloading..."]
    and then the download-failure text with the error of the tool.  A
    failure of [send], of the upload or of the deletion of the user's
    message: the status message was also edited to ["Download complete,
    uploading..."], its last text is the download-failure text with the
    error of that step, and no message is deleted.  A failure of the
    deletion of the status message: the same, and the user's message is
    deleted.  No failure: the status message was edited twice, and the
    user's message and then the status message are deleted.  Both messages
    are deleted only if every step succeeded. *)
Theorem handle_always_cleans_up (k : collaborators) (h : t) (w : world) :
  exists res w',
    handle k h w = (Normal res, w')
    /\ In (UnlinkCall (storedFilePath h)) (trace w')
    /\ (forall e,
          fst (execAsync k (files w)) = Throw e ->
          res = {| informs := ["Downloading..."; fullErrorMessage atDownload e];
                   deleted := [] |})
    /\ (forall logs,
          fst (execAsync k (files w)) = Normal logs ->
          (forall e,
             sent_from h (snd (execAsync k (files w))) = Throw e ->
             res = {| informs := ["Downloading..."; "Download complete, uploading...";
                                  fullErrorMessage atDownload e];
                      deleted := [] |})
          /\ (forall out,
                sent_from h (snd (execAsync k (files w))) = Normal out ->
                (forall e,
                   reply k out = Throw e ->
                   res = {| informs := ["Downloading...";
                                        "Download complete, uploading...";
                                        fullErrorMessage atDownload e];
                            deleted := [] |})
                /\ (reply k out = Normal tt ->
                    (forall e,
                       deleteMessage k (chat_id h) (original_user_msg_id h) = Throw e ->
                       res = {| informs := ["Downloading...";
                                            "Download complete, uploading...";
                                            fullErrorMessage atDownload e];
                                deleted := [] |})
                    /\ (deleteMessage k (chat_id h) (original_user_msg_id h)
                        = Normal tt ->
                        (forall e,
                           deleteMessage k (chat_id h) (Some (inline_msg_id h))
                           = Throw e ->
                           res = {| informs := ["Downloading...";
                                                "Download complete, uploading...";
                                                fullErrorMessage atDownload e];
                                    deleted := [original_user_msg_id h] |})
                        /\ (deleteMessage k (chat_id h) (Some (inline_msg_id h))
                            = Normal tt ->
                            res = {| informs := ["Downloading...";
                                                 "Download complete, uploading..."];
                                     deleted := [original_user_msg_id h;
                                                 Some (inline_msg_id h)] |})))))
    /\ (deleted res = [original_user_msg_id h; Some (inline_msg_id h)] ->
        exists logs out,
          fst (execAsync k (files w)) = Normal logs
          /\ sent_from h (snd (execAsync k (files w))) = Normal out
          /\ reply k out = Normal tt
          /\ deleteMessage k (chat_id h) (original_user_msg_id h) = Normal tt
          /\ deleteMessage k (chat_id h) (Some (inline_msg_id h)) = Normal tt).
Proof.
  unfold handle. cbn [emit snd files].
  destruct (execAsync k (files w)) as [[logs|e] fs]; cbn [fst snd].
  2:{ unfold on_failure. do 2 eexists. split; [reflexivity|].
      split; [apply cleanUpFiles_attempts_media|].
      split; [intros e' [= <-]; reflexivity|].
      split; [intros ? [=] | intros [=]]. }
  cbv zeta.
  match goal with
  | |- context [send h ?w2] =>
      pose proof (send_reads_files_only h w2
                    {| files := fs; trace := []; write_error := accepts_writes |}
                    eq_refl) as S;
      fold (sent_from h fs) in S;
      destruct (send h w2) as [[out|e] w3]
  end; cbn [fst] in S.
  2:{ unfold on_failure. do 2 eexists. split; [reflexivity|].
      split; [apply cleanUpFiles_attempts_media|].
      split; [intros ? [=]|].
      split; [|rewrite <- S; cbn [deleted]; intros [=]].
      intros _ _. rewrite <- S. split; [intros e' [= <-]; reflexivity | intros ? [=]]. }
  destruct (reply k out) as [[]|e] eqn:R.
  2:{ unfold on_failure. do 2 eexists. split; [reflexivity|].
      split; [apply cleanUpFiles_attempts_media|].
      split; [intros ? [=]|].
      split; [|cbn [deleted]; intros [=]].
      intros _ _. rewrite <- S. split; [intros ? [=]|].
      intros ? [= <-]. rewrite R.
      split; [intros e' [= <-]; reflexivity | intros [=]]. }
  destruct (deleteMessage k (chat_id h) (original_user_msg_id h)) as [[]|e] eqn:D1.
  2:{ unfold on_failure. do 2 eexists. split; [reflexivity|].
      split; [apply cleanUpFiles_attempts_media|].
      split; [intros ? [=]|].
      split; [|cbn [deleted]; intros [=]].
      intros _ _. rewrite <- S. split; [intros ? [=]|].
      intros ? [= <-]. rewrite R. split; [intros ? [=]|]. intros _.
      split; [intros e' [= <-]; reflexivity | intros [=]]. }
  destruct (deleteMessage k (chat_id h) (Some (inline_msg_id h))) as [[]|e] eqn:D2.
  2:{ unfold on_failure. do 2 eexists. split; [reflexivity|].
      split; [apply cleanUpFiles_attempts_media|].
      split; [intros ? [=]|].
      split; [|cbn [deleted]; intros [=]].
      intros _ _. rewrite <- S. split; [intros ? [=]|].
      intros ? [= <-]. rewrite R. split; [intros ? [=]|]. intros _.
      split; [intros ? [=]|]. intros _.
      split; [intros e' [= <-]; reflexivity | intros [=]]. }
  do 2 eexists. split; [reflexivity|].
  split; [simpl; apply in_or_app; left; apply cleanUpFiles_attempts_media|].
  split; [intros ? [=]|].
  split.
  - intros _ _. rewrite <- S. split; [intros ? [=]|].
    intros ? [= <-]. rewrite R. split; [intros ? [=]|]. intros _.
    split; [intros ? [=]|]. intros _.
    split; [intros ? [=]|]. intros _. reflexivity.
  - intros _. exists logs, out. rewrite <- S. repeat split; assumption.
Qed.

End Handle.
